(** * llmrouter: the dispatch pipeline, the buffered writer, record selection
      and the latency report, embedded from the Python sources

    The development follows the repository's modules:
    - [DataHandler]      src/lib/file/data_handler.py, record selection
    - [Report]           src/lib/rest_client/report_generator.py
    - [Sink]             src/lib/file/data_handler.py, class AsyncDataWriter
    - [Client]           src/client/rest/rest_inference_client.py
    - [Pipeline]         src/lib/file/data_handler.py, producer and consumers

    Python exceptions are values of [exn]; a call that may raise returns a
    [result].  Coroutines are modelled by their atomic blocks (the code
    between two [await]s), interleaved by an explicit schedule. *)

From Stdlib Require Import ZArith QArith Qround Lia Lqa List String Floats Uint63.
From stdpp Require Import base list strings.

Close Scope Q_scope.
Open Scope nat_scope.

(** ** Exceptions and results *)

Inductive exn : Type :=
  | ValueError
  | TypeError
  | RuntimeError
  | IndexError
  | ZeroDivisionError
  | TransportError (msg : string).

Inductive result (A : Type) : Type :=
  | Ok (a : A)
  | Raise (e : exn).
Arguments Ok {A} a.
Arguments Raise {A} e.

#[global] Instance result_ret : MRet result := fun A a => Ok a.
#[global] Instance result_bind : MBind result := fun A B k r =>
  match r with
  | Ok a => k a
  | Raise e => Raise e
  end.

(** What a [print] call shows on the console: only the kind of message is
    kept. *)
Inductive console : Type :=
  | Info
  | Warning.

(** * Record selection (DataHandler._process_data_by_mode) *)

Module DataHandler.

Inductive ReadMode : Type :=
  | SPECIFIED_COUNT
  | FULL_LOAD
  | FIRST_N
  | RANDOM_N.

Section Selection.
Context {A : Type}.

  (** [raw_data[:count]]: a negative stop counts from the end of the list. *)
Definition slice_to (raw_data : list A) (count : Z) : list A :=
    if (0 <=? count)%Z then take (Z.to_nat count) raw_data
    else take (length raw_data - Z.to_nat (- count)) raw_data.

  (** [for _ in range(k): result.append(first_item)] *)
Fixpoint append_times (k : nat) (first_item : A) (result : list A) : list A :=
    match k with
    | O => result
    | S k' => append_times k' first_item (result ++ [first_item])
    end.

  (** The selection loop of the standard library's [random.sample] on its
      pool: draw [j] below the number of items left, output [pool[j]], move
      the last live item into slot [j].  The generator is the function
      [randbits], reduced below the bound as [_randbelow] does. *)
Fixpoint sample_loop (randbits : nat -> nat) (i k : nat) (pool : list A) : list A :=
    match k with
    | O => []
    | S k' =>
        let live := length pool in
        let j := randbits i `mod` live in
        match pool !! j, last pool with
        | Some x, Some y =>
            x :: sample_loop randbits (S i) k' (take (live - 1) (<[j := y]> pool))
        | _, _ => []
        end
    end.

  (** [random.sample(population, k)]: ValueError when [k] is negative or
      larger than the population. *)
Definition random_sample (randbits : nat -> nat) (population : list A) (k : Z)
    : result (list A) :=
    if ((k <? 0) || (Z.of_nat (length population) <? k))%Z then Raise ValueError
    else Ok (sample_loop randbits 0 (Z.to_nat k) population).

  (** [DataHandler._process_data_by_mode].  [count] is [None] for Python's
      [None]; comparing it with an integer raises TypeError. *)
Definition _process_data_by_mode (randbits : nat -> nat) (raw_data : list A)
      (mode : ReadMode) (count : option Z) (fill_with_first : bool)
    : list console * result (list A) :=
    let total_count := Z.of_nat (length raw_data) in
    match raw_data with
    | [] => ([Warning], Ok [])
    | first_item :: _ =>
        match mode with
        | FULL_LOAD => ([Info], Ok raw_data)
        | SPECIFIED_COUNT =>
            match count with
            | None => ([], Raise TypeError)
            | Some count =>
                if (count <=? total_count)%Z then ([Info], Ok (slice_to raw_data count))
                else if fill_with_first then
                  ([Info], Ok (append_times (Z.to_nat (count - total_count)) first_item raw_data))
                else ([Info], Ok raw_data)
            end
        | FIRST_N =>
            match count with
            | None => ([], Raise TypeError)
            | Some count =>
                if (total_count <? count)%Z then ([Warning], Ok raw_data)
                else ([Info], Ok (slice_to raw_data count))
            end
        | RANDOM_N =>
            match count with
            | None => ([], Raise TypeError)
            | Some count =>
                if (total_count <? count)%Z then ([Warning], Ok raw_data)
                else
                  match random_sample randbits raw_data count with
                  | Ok result => ([Info], Ok result)
                  | Raise e => ([], Raise e)
                  end
            end
        end
    end.

  (** The argument checks of [DataHandler.load_data] that concern [count],
      followed by the selection; [raw_data] stands for the records the
      loader parsed from the file. *)
Definition load_data (randbits : nat -> nat) (raw_data : list A)
      (mode : ReadMode) (count : option Z) (fill_with_first : bool)
    : list console * result (list A) :=
    match mode, count with
    | (SPECIFIED_COUNT | FIRST_N | RANDOM_N), None => ([], Raise ValueError)
    | _, _ =>
        match count with
        | Some c =>
            if (c <=? 0)%Z then ([], Raise ValueError)
            else _process_data_by_mode randbits raw_data mode count fill_with_first
        | None => _process_data_by_mode randbits raw_data mode count fill_with_first
        end
    end.

End Selection.

End DataHandler.

(** * Python numbers and dictionaries *)

(** The arithmetic the report uses, as an interface with two
    implementations: exact rationals, for statements about every input, and
    binary64 floats, which are Python's [float]. *)
Class PyNum (R : Type) : Type := {
  of_Z : Z -> R;
  num_add : R -> R -> R;
  num_sub : R -> R -> R;
  num_mul : R -> R -> R;
  num_div : R -> R -> R;
  num_eqb : R -> R -> bool;
  num_ltb : R -> R -> bool;
  (** [x.is_integer()] *)
  is_integer : R -> bool;
  (** [int(x)], truncation toward zero; [None] where Python raises (nan,
      infinities) *)
  to_int : R -> option Z
}.

#[global] Instance Q_num : PyNum Q := {
  of_Z := inject_Z;
  num_add := Qplus;
  num_sub := Qminus;
  num_mul := Qmult;
  num_div := Qdiv;
  num_eqb := Qeq_bool;
  num_ltb := fun a b => negb (Qle_bool b a);
  is_integer := fun q => (Qnum q mod Z.pos (Qden q) =? 0)%Z;
  to_int := fun q => Some (Z.quot (Qnum q) (Z.pos (Qden q)))
}.

Definition float_of_Z (z : Z) : float :=
  if (0 <=? z)%Z then PrimFloat.of_uint63 (Uint63.of_Z z)
  else PrimFloat.opp (PrimFloat.of_uint63 (Uint63.of_Z (- z))).

Definition float_is_integer (f : float) : bool :=
  match Prim2SF f with
  | S754_zero _ => true
  | S754_finite _ m e =>
      if (0 <=? e)%Z then true else (Z.pos m mod 2 ^ (- e) =? 0)%Z
  | S754_infinity _ | S754_nan => false
  end.

Definition float_to_int (f : float) : option Z :=
  match Prim2SF f with
  | S754_zero _ => Some 0%Z
  | S754_finite sign m e =>
      let magnitude :=
        if (0 <=? e)%Z then (Z.pos m * 2 ^ e)%Z else (Z.pos m / 2 ^ (- e))%Z in
      Some (if sign then (- magnitude)%Z else magnitude)
  | S754_infinity _ | S754_nan => None
  end.

#[global] Instance float_num : PyNum float := {
  of_Z := float_of_Z;
  num_add := PrimFloat.add;
  num_sub := PrimFloat.sub;
  num_mul := PrimFloat.mul;
  num_div := PrimFloat.div;
  num_eqb := PrimFloat.eqb;
  num_ltb := PrimFloat.ltb;
  is_integer := float_is_integer;
  to_int := float_to_int
}.

(** A Python value as the harness uses them: numbers, strings and
    dictionaries in insertion order. *)
#[warnings="-register-all"]
Inductive value (R : Type) : Type :=
  | VNone
  | VInt (z : Z)
  | VFloat (r : R)
  | VStr (s : string)
  | VDict (d : list (string * value R)).
Arguments VNone {R}.
Arguments VInt {R} z.
Arguments VFloat {R} r.
Arguments VStr {R} s.
Arguments VDict {R} d.

Abbreviation dict R := (list (string * value R)).

(** [d.get(key)] *)
Fixpoint dict_get {R : Type} (key : string) (d : dict R) : option (value R) :=
  match d with
  | [] => None
  | (k, v) :: d' => if String.eqb k key then Some v else dict_get key d'
  end.

(** [d.get(key, default)] *)
Definition dict_get_default {R : Type} (key : string) (default : value R)
    (d : dict R) : value R :=
  match dict_get key d with
  | Some v => v
  | None => default
  end.

(** [seq[i]] for an integer [i]: a negative index counts from the end,
    IndexError outside the list. *)
Definition py_index {A : Type} (l : list A) (i : Z) : result A :=
  let pos := if (i <? 0)%Z then (Z.of_nat (length l) + i)%Z else i in
  if (pos <? 0)%Z then Raise IndexError
  else match l !! Z.to_nat pos with
       | Some x => Ok x
       | None => Raise IndexError
       end.

(** * The report generator (RequestReportGenerator) *)

Module Report.

Section Generator.
Context {R : Type} `{PyNum R}.

(** [a / b] on numbers: ZeroDivisionError when [b] is zero. *)
Definition py_div (a b : R) : result R :=
  if num_eqb b (of_Z 0) then Raise ZeroDivisionError else Ok (num_div a b).

(** [RequestReportGenerator._percentile] *)
Definition _percentile (data : list R) (percentile : Z) : result R :=
  match data with
  | [] => Ok (of_Z 0)
  | _ :: _ =>
      fraction ← py_div (of_Z percentile) (of_Z 100);
      let index := num_mul fraction (of_Z (Z.of_nat (length data) - 1)) in
      match to_int index with
      | None => Raise ValueError
      | Some int_index =>
          if is_integer index then py_index data int_index
          else
            lower ← py_index data int_index;
            upper ← py_index data (int_index + 1);
            Ok (num_add lower
                  (num_mul (num_sub upper lower) (num_sub index (of_Z int_index))))
      end
  end.

(** A dictionary key: [None], a number or a string; a dictionary is not
    hashable. *)
Definition key_eqb (a b : value R) : bool :=
  match a, b with
  | VNone, VNone => true
  | VInt x, VInt y => (x =? y)%Z
  | VInt x, VFloat y | VFloat y, VInt x => num_eqb (of_Z x) y
  | VFloat x, VFloat y => num_eqb x y
  | VStr x, VStr y => String.eqb x y
  | _, _ => false
  end.

Fixpoint counts_get (key : value R) (counts : list (value R * nat)) : option nat :=
  match counts with
  | [] => None
  | (k, c) :: counts' => if key_eqb k key then Some c else counts_get key counts'
  end.

Fixpoint counts_set (key : value R) (c : nat) (counts : list (value R * nat))
  : list (value R * nat) :=
  match counts with
  | [] => [(key, c)]
  | (k, c') :: counts' =>
      if key_eqb k key then (k, c) :: counts' else (k, c') :: counts_set key c counts'
  end.

(** [status_counts[status] = status_counts.get(status, 0) + 1] *)
Definition count_status (status : value R) (counts : list (value R * nat))
  : result (list (value R * nat)) :=
  match status with
  | VDict _ => Raise TypeError
  | _ => Ok (counts_set status (default 0 (counts_get status counts) + 1) counts)
  end.

(** [if duration > 0: durations.append(duration)] *)
Definition keep_duration (duration : value R) (durations : list R)
  : result (list R) :=
  match duration with
  | VInt z => Ok (if (0 <? z)%Z then durations ++ [of_Z z] else durations)
  | VFloat r => Ok (if num_ltb (of_Z 0) r then durations ++ [r] else durations)
  | VNone | VStr _ | VDict _ => Raise TypeError
  end.

(** The loop over [self.requests]. *)
Fixpoint tally (requests : list (dict R)) (counts : list (value R * nat))
    (durations : list R) : result (list (value R * nat) * list R) :=
  match requests with
  | [] => Ok (counts, durations)
  | req :: requests' =>
      counts' ← count_status (dict_get_default "status" (VInt 0) req) counts;
      durations' ← keep_duration (dict_get_default "duration_ms" (VInt 0) req) durations;
      tally requests' counts' durations'
  end.

(** [durations.sort()] *)
Fixpoint insert_sorted (x : R) (l : list R) : list R :=
  match l with
  | [] => [x]
  | y :: l' => if num_ltb x y then x :: y :: l' else y :: insert_sorted x l'
  end.

Definition sort (l : list R) : list R := foldr insert_sorted [] l.

Definition num_min (a b : R) : R := if num_ltb b a then b else a.
Definition num_max (a b : R) : R := if num_ltb a b then b else a.

Record stats : Type := {
  min_ms : R;
  max_ms : R;
  avg_ms : R;
  p50_ms : R;
  p80_ms : R;
  p90_ms : R;
  p95_ms : R;
  p99_ms : R
}.

(** The numbers [_generate_summary] formats into its text. *)
Record summary : Type := {
  total : nat;
  success_count : nat;
  success_rate : R;
  shown : option stats
}.

Record report : Type := {
  total_requests : nat;
  status_code_counts : list (value R * nat);
  duration_stats : option stats;
  summary_text : option summary
}.

(** The report of an empty generator; its summary is the fixed text. *)
Definition empty_report : report :=
  {| total_requests := 0; status_code_counts := []; duration_stats := None;
     summary_text := None |}.

(** [RequestReportGenerator._generate_summary] *)
Definition _generate_summary (status_counts : list (value R * nat))
    (duration_stats : option stats) : result summary :=
  let total := foldr (fun kc acc => kc.2 + acc) 0 status_counts in
  let success_count := default 0 (counts_get (VInt 200) status_counts) in
  success_rate ←
    (if 0 <? total then
       ratio ← py_div (of_Z (Z.of_nat success_count)) (of_Z (Z.of_nat total));
       Ok (num_mul ratio (of_Z 100))
     else Ok (of_Z 0));
  Ok {| total := total; success_count := success_count;
        success_rate := success_rate; shown := duration_stats |}.

(** The statistics over the sorted positive durations. *)
Definition compute_stats (durations : list R) : result (option stats) :=
  match sort durations with
  | [] => Ok None
  | d :: ds =>
      let sorted := d :: ds in
      avg ← py_div (foldl num_add (of_Z 0) sorted) (of_Z (Z.of_nat (length sorted)));
      p50 ← _percentile sorted 50;
      p80 ← _percentile sorted 80;
      p90 ← _percentile sorted 90;
      p95 ← _percentile sorted 95;
      p99 ← _percentile sorted 99;
      Ok (Some {| min_ms := foldl num_min d ds; max_ms := foldl num_max d ds;
                  avg_ms := avg; p50_ms := p50; p80_ms := p80; p90_ms := p90;
                  p95_ms := p95; p99_ms := p99 |})
  end.

(** [RequestReportGenerator.generate_report] on [self.requests] *)
Definition generate_report (requests : list (dict R)) : result report :=
  match requests with
  | [] => Ok empty_report
  | _ :: _ =>
      '(status_counts, durations) ← tally requests [] [];
      duration_stats ← compute_stats durations;
      text ← _generate_summary status_counts duration_stats;
      Ok {| total_requests := length requests;
            status_code_counts := status_counts;
            duration_stats := duration_stats;
            summary_text := Some text |}
  end.


End Generator.

(** The percentile as the specification words it, over exact rationals:
    index = (p/100)*(n-1); the entry at the index when the index is
    integral, else the linear interpolation between the entries at its
    floor and its ceiling. *)
Definition percentile_spec (d : list Q) (p : Z) : option Q :=
  let index := ((inject_Z p / inject_Z 100) * inject_Z (Z.of_nat (length d) - 1))%Q in
  if Qeq_bool index (inject_Z (Qfloor index)) then d !! Z.to_nat (Qfloor index)
  else
    lo ← d !! Z.to_nat (Qfloor index);
    hi ← d !! Z.to_nat (Qceiling index);
    Some (lo + (hi - lo) * (index - inject_Z (Qfloor index)))%Q.

(** The index computed in binary64, and whether float arithmetic classifies
    it as the exact quotient does. *)
Definition float_index (p n : Z) : float :=
  num_mul (num_div (of_Z p) (of_Z 100)) (of_Z (n - 1)).

Definition float_index_exact (p n : Z) : bool :=
  Bool.eqb (is_integer (float_index p n)) ((p * (n - 1)) mod 100 =? 0)%Z
  && match to_int (float_index p n) with
     | Some k => (k =? p * (n - 1) / 100)%Z
     | None => false
     end.


End Report.

(** * The buffered writer (AsyncDataWriter) *)

Module Sink.

(** Where the coroutine [_writer_loop] is suspended. *)
Inductive task : Type :=
  | AtGet      (* at [await wait_for(self.write_queue.get(), ...)] *)
  | Wrote      (* at [await f.write(...)]: the line is in the file object *)
  | Finished.  (* returned, after the final flush *)

(** What a caller's coroutine does when it is scheduled: it completes its
    call, stays suspended, or raises. *)
Inductive attempt : Type :=
  | Done
  | Blocked
  | Failed (e : exn).

Section Writer.
Context {Item : Type}.

(** The file at [file_path]: the lines written to the file object and not
    yet flushed, the lines in the persisted file, and how many times
    [f.flush()] was called. *)
Record file : Type := {
  buffered : list Item;
  durable : list Item;
  flushes : nat
}.

Record writer : Type := {
  buffer_size : Z;
  flush_count : Z;
  flush_interval : Q;
  write_queue : list (option Item);
  writer_task : option task;
  is_running : bool;
  total_written : nat;
  last_flush_time : Q;
  output : file
}.

Definition with_queue (q : list (option Item)) (w : writer) : writer :=
  {| buffer_size := buffer_size w; flush_count := flush_count w;
     flush_interval := flush_interval w; write_queue := q;
     writer_task := writer_task w; is_running := is_running w;
     total_written := total_written w; last_flush_time := last_flush_time w;
     output := output w |}.

Definition with_task (t : option task) (w : writer) : writer :=
  {| buffer_size := buffer_size w; flush_count := flush_count w;
     flush_interval := flush_interval w; write_queue := write_queue w;
     writer_task := t; is_running := is_running w;
     total_written := total_written w; last_flush_time := last_flush_time w;
     output := output w |}.

Definition with_running (b : bool) (w : writer) : writer :=
  {| buffer_size := buffer_size w; flush_count := flush_count w;
     flush_interval := flush_interval w; write_queue := write_queue w;
     writer_task := writer_task w; is_running := b;
     total_written := total_written w; last_flush_time := last_flush_time w;
     output := output w |}.

Definition with_total (n : nat) (w : writer) : writer :=
  {| buffer_size := buffer_size w; flush_count := flush_count w;
     flush_interval := flush_interval w; write_queue := write_queue w;
     writer_task := writer_task w; is_running := is_running w;
     total_written := n; last_flush_time := last_flush_time w;
     output := output w |}.

Definition with_last_flush (t : Q) (w : writer) : writer :=
  {| buffer_size := buffer_size w; flush_count := flush_count w;
     flush_interval := flush_interval w; write_queue := write_queue w;
     writer_task := writer_task w; is_running := is_running w;
     total_written := total_written w; last_flush_time := t;
     output := output w |}.

Definition with_output (f : file) (w : writer) : writer :=
  {| buffer_size := buffer_size w; flush_count := flush_count w;
     flush_interval := flush_interval w; write_queue := write_queue w;
     writer_task := writer_task w; is_running := is_running w;
     total_written := total_written w; last_flush_time := last_flush_time w;
     output := f |}.

(** [AsyncDataWriter.__init__]; [existing] is what the file at [file_path]
    already holds (it is opened for appending). *)
Definition init (buffer_size flush_count : Z) (flush_interval : Q)
    (existing : list Item) : writer :=
  {| buffer_size := buffer_size; flush_count := flush_count;
     flush_interval := flush_interval; write_queue := [];
     writer_task := None; is_running := false; total_written := 0;
     last_flush_time := 0%Q;
     output := {| buffered := []; durable := existing; flushes := 0 |} |}.

(** [asyncio.Queue.full()]: a queue of maxsize 0 or less is unbounded. *)
Definition full (w : writer) : bool :=
  ((0 <? buffer_size w) && (buffer_size w <=? Z.of_nat (length (write_queue w))))%Z.

(** [f.write(line)] and [f.flush()] *)
Definition file_write (d : Item) (f : file) : file :=
  {| buffered := buffered f ++ [d]; durable := durable f; flushes := flushes f |}.

Definition file_flush (f : file) : file :=
  {| buffered := []; durable := durable f ++ buffered f; flushes := S (flushes f) |}.

(** [AsyncDataWriter.start] *)
Definition start (w : writer) : writer :=
  if is_running w then w
  else with_task (Some AtGet) (with_running true w).

(** [AsyncDataWriter.write_data]: RuntimeError when the writer is not
    running; the caller waits while the queue is full. *)
Definition write_data (d : Item) (w : writer) : attempt * writer :=
  if negb (is_running w) then (Failed RuntimeError, w)
  else if full w then (Blocked, w)
  else (Done, with_queue (write_queue w ++ [Some d]) w).

(** [AsyncDataWriter.stop] up to [await self.write_queue.put(None)]:
    [None] when the writer is not running and [stop] returns at once. *)
Definition stop_put (w : writer) : option (attempt * writer) :=
  if negb (is_running w) then None
  else if full w then Some (Blocked, w)
  else Some (Done, with_queue (write_queue w ++ [None]) w).

(** [AsyncDataWriter.stop] from [await self.writer_task] on. *)
Definition stop_join (w : writer) : attempt * writer :=
  match writer_task w with
  | Some AtGet | Some Wrote => (Blocked, w)
  | Some Finished | None => (Done, with_running false w)
  end.

(** The two flush conditions of [_writer_loop], read after a line was
    written: the queue holds at least [flush_count] items, or
    [flush_interval] seconds passed since [last_flush_time]. *)
Definition count_due (w : writer) : bool :=
  ((0 <? flush_count w) && (flush_count w <=? Z.of_nat (length (write_queue w))))%Z.

Definition time_due (current_time : Q) (w : writer) : bool :=
  negb (Qle_bool (flush_interval w) 0)
  && Qle_bool (flush_interval w) (current_time - last_flush_time w).

(** One scheduling of [_writer_loop], the clock reading [current_time]:
    from [AtGet] it takes the next queue item (none: the wait times out and
    the loop continues), writes its line, or on the end marker leaves the
    loop, flushes and returns; from [Wrote] it counts the line and applies
    the flush conditions. *)
Definition writer_step (current_time : Q) (w : writer) : writer :=
  match writer_task w with
  | Some AtGet =>
      match write_queue w with
      | [] => w
      | None :: q =>
          with_task (Some Finished) (with_output (file_flush (output w)) (with_queue q w))
      | Some d :: q =>
          with_task (Some Wrote) (with_output (file_write d (output w)) (with_queue q w))
      end
  | Some Wrote =>
      let w := with_total (total_written w + 1) w in
      let should_flush := count_due w || time_due current_time w in
      let w := if time_due current_time w then with_last_flush current_time w else w in
      let w := if should_flush then with_output (file_flush (output w)) w else w in
      with_task (Some AtGet) w
  | Some Finished | None => w
  end.

(** A caller's coroutine: the calls it still has to make. *)
Inductive call : Type :=
  | Start
  | Write (d : Item)
  | Stop
  | Join.   (* inside [stop], waiting for the writer task *)

Record system : Type := {
  sink : writer;
  program : list call;
  raised : option exn
}.

Inductive event : Type :=
  | Caller
  | Writer (current_time : Q).

Definition caller_step (s : system) : system :=
  match raised s, program s with
  | Some _, _ | _, [] => s
  | None, Start :: rest =>
      {| sink := start (sink s); program := rest; raised := None |}
  | None, Write d :: rest =>
      match write_data d (sink s) with
      | (Done, w) => {| sink := w; program := rest; raised := None |}
      | (Blocked, _) => s
      | (Failed e, w) => {| sink := w; program := program s; raised := Some e |}
      end
  | None, Stop :: rest =>
      match stop_put (sink s) with
      | None => {| sink := sink s; program := rest; raised := None |}
      | Some (Done, w) => {| sink := w; program := Join :: rest; raised := None |}
      | Some (_, _) => s
      end
  | None, Join :: rest =>
      match stop_join (sink s) with
      | (Done, w) => {| sink := w; program := rest; raised := None |}
      | (_, _) => s
      end
  end.

Definition step (s : system) (e : event) : system :=
  match e with
  | Caller => caller_step s
  | Writer current_time =>
      {| sink := writer_step current_time (sink s); program := program s;
         raised := raised s |}
  end.

Definition run (schedule : list event) (s : system) : system :=
  foldl step s schedule.

(** A caller that starts the writer, writes [items] and stops it. *)
Definition session (w : writer) (items : list Item) : system :=
  {| sink := w; program := Start :: map Write items ++ [Stop]; raised := None |}.

(** A schedule that lets the caller and the writer take turns. *)
Definition round_robin (rounds : nat) : list event :=
  concat (replicate rounds [Caller; Writer 0%Q; Writer 0%Q]).






End Writer.

Arguments file Item : clear implicits.
Arguments writer Item : clear implicits.
Arguments system Item : clear implicits.
Arguments call Item : clear implicits.

End Sink.

(** * The inference client (RESTInferenceClient, AsyncHttpClient.post) *)

Module Client.

(** What the network does with one request: the server replies, with any
    status, or the exchange breaks (connection refused, timeout, a body
    that is not JSON, ...). *)
Inductive wire (R : Type) : Type :=
  | Replied (status : Z) (data : value R) (headers : dict R)
  | Broken (msg : string).
Arguments Replied {R} status data headers.
Arguments Broken {R} msg.

(** [str(e)] *)
Definition exn_text (e : exn) : string :=
  match e with
  | TransportError msg => msg
  | RuntimeError => "写入器未启动"
  | ValueError => "ValueError"
  | TypeError => "TypeError"
  | IndexError => "IndexError"
  | ZeroDivisionError => "ZeroDivisionError"
  end.

Section Consumer.
Context {R : Type}.

(** [AsyncHttpClient.post]: the response dictionary, or the exception of
    the transport. *)
Definition post (request_id : string) (duration : R) (w : wire R) : result (dict R) :=
  match w with
  | Replied status data headers =>
      Ok [("status", VInt status); ("data", data); ("headers", VDict headers);
          ("request_id", VStr request_id); ("duration_ms", VFloat duration)]
  | Broken msg => Raise (TransportError msg)
  end.

(** What one call of the consumer did: the dictionaries it passed to
    [report_generator.add_request], those it passed to
    [response_writer.write_data] and that were accepted, and what it
    returned or raised. *)
Record consumed : Type := {
  recorded : list (dict R);
  written : list (dict R);
  returned : result (dict R)
}.

(** The [except Exception as e] branch of [http_inference_consumer];
    [so_far] is what the [try] block had recorded when it raised.
    [writer_running] is [None] when [self.response_writer] is [None], else
    whether the writer is running: if it is not, [write_data] raises
    here too and the exception leaves the consumer. *)
Definition on_exception (writer_running : option bool) (now : R)
    (worker_id request_num : nat) (so_far : list (dict R)) (e : exn) : consumed :=
  let error_response :=
    [("status", VInt 500); ("error", VStr (exn_text e));
     ("request_id", VStr "unknown"); ("duration_ms", VInt 0)] in
  let error_data :=
    [("worker_id", VInt (Z.of_nat worker_id));
     ("request_num", VInt (Z.of_nat request_num));
     ("request_id", VStr "unknown"); ("error", VStr (exn_text e));
     ("timestamp", VFloat now)] in
  let result :=
    [("worker_id", VInt (Z.of_nat worker_id));
     ("request_num", VInt (Z.of_nat request_num));
     ("request_id", VStr "unknown"); ("error", VStr (exn_text e))] in
  match writer_running with
  | None =>
      {| recorded := so_far ++ [error_response]; written := []; returned := Ok result |}
  | Some true =>
      {| recorded := so_far ++ [error_response]; written := [error_data];
         returned := Ok result |}
  | Some false =>
      {| recorded := so_far ++ [error_response]; written := [];
         returned := Raise RuntimeError |}
  end.

(** [RESTInferenceClient.http_inference_consumer] *)
Definition http_inference_consumer (writer_running : option bool) (w : wire R)
    (uuid : string) (duration now : R) (worker_id request_num : nat) : consumed :=
  match post uuid duration w with
  | Raise e => on_exception writer_running now worker_id request_num [] e
  | Ok response =>
      let request_id := dict_get_default "request_id" (VStr "unknown") response in
      let response_data :=
        [("worker_id", VInt (Z.of_nat worker_id));
         ("request_num", VInt (Z.of_nat request_num));
         ("request_id", request_id); ("response", VDict response);
         ("timestamp", VFloat now)] in
      let result :=
        [("worker_id", VInt (Z.of_nat worker_id));
         ("request_num", VInt (Z.of_nat request_num));
         ("request_id", request_id); ("response", VDict response)] in
      match writer_running with
      | None => {| recorded := [response]; written := []; returned := Ok result |}
      | Some true =>
          {| recorded := [response]; written := [response_data]; returned := Ok result |}
      | Some false =>
          on_exception writer_running now worker_id request_num [response] RuntimeError
      end
  end.

(** The world a run of the client lives in: what the network, the uuid
    generator and the clock give on the [k]-th call, the aggregator's list,
    and what was handed to the sink. *)
Record world : Type := {
  network : nat -> wire R;
  uuids : nat -> string;
  durations : nat -> R;
  clock : nat -> R;
  writer_running : option bool;
  calls : nat;
  aggregator : list (dict R);
  sink_log : list (dict R)
}.

(** The consumer as the pipeline calls it: [consumer_func(data, worker_id,
    request_num)], the request body being sent and the outcome decided by
    the world. *)
Definition consumer_func {Rec : Type} (data : Rec) (worker_id request_num : nat)
    (env : world) : world * result (dict R) :=
  let k := calls env in
  let c := http_inference_consumer (writer_running env) (network env k) (uuids env k)
             (durations env k) (clock env k) worker_id request_num in
  ({| network := network env; uuids := uuids env; durations := durations env;
      clock := clock env; writer_running := writer_running env; calls := S k;
      aggregator := aggregator env ++ recorded c;
      sink_log := sink_log env ++ written c |},
   returned c).

(** The worker and the sequence number in a dictionary the consumer
    returns. *)
Definition tag_of (result : dict R) : option (nat * nat) :=
  match dict_get "worker_id" result, dict_get "request_num" result with
  | Some (VInt w), Some (VInt n) => Some (Z.to_nat w, Z.to_nat n)
  | _, _ => None
  end.

End Consumer.

Arguments consumed R : clear implicits.
Arguments world R : clear implicits.

(** A world in which every exchange succeeds and no writer is configured. *)
Definition quiet_world : world Q :=
  {| network := fun _ => Replied 200 VNone []; uuids := fun _ => "0f3a"%string;
     durations := fun _ => (12#1)%Q; clock := fun _ => (17#1)%Q;
     writer_running := None; calls := 0; aggregator := []; sink_log := [] |}.

End Client.

(** * The producer/consumer pipeline (DataHandler.producer_consumer_executor) *)

Module Pipeline.

(** Where the producer is in [load_data_with_queue]. *)
Inductive producer_state : Type :=
  | Reading        (* in the [async for] loop *)
  | Closing        (* at the [await queue.put(None)] that marks the end *)
  | ProducerDone.

Section Executor.
Context {Rec Res Env : Type}.
Variable consumer_func : Rec -> nat -> nat -> Env -> Env * result Res.

(** Where a consumer is in [_consumer]. *)
Inductive consumer_state : Type :=
  | Waiting                   (* at [await data_queue.get()] *)
  | Processing (data : Rec)   (* inside [await consumer_func(...)] *)
  | Exited.

Record consumer : Type := {
  state : consumer_state;
  processed_count : nat
}.

Record pipeline : Type := {
  source : list Rec;                  (* the records not yet read *)
  maxsize : Z;
  data_queue : list (option Rec);
  producer : producer_state;
  consumers : list consumer;          (* position = worker_id *)
  results : list Res;
  env : Env
}.

Definition with_consumer (w : nat) (c : consumer) (p : pipeline) : pipeline :=
  {| source := source p; maxsize := maxsize p; data_queue := data_queue p;
     producer := producer p; consumers := <[w := c]> (consumers p);
     results := results p; env := env p |}.

Definition with_data_queue (q : list (option Rec)) (p : pipeline) : pipeline :=
  {| source := source p; maxsize := maxsize p; data_queue := q;
     producer := producer p; consumers := consumers p;
     results := results p; env := env p |}.

Definition queue_full (p : pipeline) : bool :=
  ((0 <? maxsize p) && (maxsize p <=? Z.of_nat (length (data_queue p))))%Z.

(** [producer_consumer_executor] up to [asyncio.gather]: an empty queue of
    [buffer_size] places, the producer and [max_workers] consumers. *)
Definition executor (records : list Rec) (buffer_size : Z) (max_workers : nat)
    (e : Env) : pipeline :=
  {| source := records; maxsize := buffer_size; data_queue := [];
     producer := Reading;
     consumers := replicate max_workers {| state := Waiting; processed_count := 0 |};
     results := []; env := e |}.

(** One scheduling of the producer: it puts the next record, waiting while
    the queue is full; after the last record (or a read error, which takes
    the same path) it puts the end marker [None], once. *)
Definition producer_step (p : pipeline) : pipeline :=
  match producer p with
  | Reading =>
      match source p with
      | [] =>
          {| source := []; maxsize := maxsize p; data_queue := data_queue p;
             producer := Closing; consumers := consumers p;
             results := results p; env := env p |}
      | data :: rest =>
          if queue_full p then p
          else {| source := rest; maxsize := maxsize p;
                  data_queue := data_queue p ++ [Some data];
                  producer := Reading; consumers := consumers p;
                  results := results p; env := env p |}
      end
  | Closing =>
      if queue_full p then p
      else {| source := source p; maxsize := maxsize p;
              data_queue := data_queue p ++ [None];
              producer := ProducerDone; consumers := consumers p;
              results := results p; env := env p |}
  | ProducerDone => p
  end.

(** One scheduling of consumer [w]: waiting, it takes the next queue entry
    and leaves its loop on the end marker; processing, its call of
    [consumer_func(data, worker_id, processed_count + 1)] completes, and
    the result is appended and counted unless the call raised. *)
Definition consumer_step (w : nat) (p : pipeline) : pipeline :=
  match consumers p !! w with
  | None => p
  | Some c =>
      match state c with
      | Waiting =>
          match data_queue p with
          | [] => p
          | None :: q =>
              with_consumer w {| state := Exited; processed_count := processed_count c |}
                (with_data_queue q p)
          | Some data :: q =>
              with_consumer w
                {| state := Processing data; processed_count := processed_count c |}
                (with_data_queue q p)
          end
      | Processing data =>
          match consumer_func data w (processed_count c + 1) (env p) with
          | (e, Ok result) =>
              {| source := source p; maxsize := maxsize p; data_queue := data_queue p;
                 producer := producer p;
                 consumers :=
                   <[w := {| state := Waiting;
                             processed_count := processed_count c + 1 |}]> (consumers p);
                 results := results p ++ [result]; env := e |}
          | (e, Raise _) =>
              {| source := source p; maxsize := maxsize p; data_queue := data_queue p;
                 producer := producer p;
                 consumers :=
                   <[w := {| state := Waiting;
                             processed_count := processed_count c |}]> (consumers p);
                 results := results p; env := e |}
          end
      | Exited => p
      end
  end.

Inductive event : Type :=
  | Produce
  | Consume (worker_id : nat).

Definition step (p : pipeline) (e : event) : pipeline :=
  match e with
  | Produce => producer_step p
  | Consume w => consumer_step w p
  end.

Definition run (schedule : list event) (p : pipeline) : pipeline :=
  foldl step p schedule.

Definition exited (c : consumer) : bool :=
  match state c with
  | Exited => true
  | _ => false
  end.

(** [asyncio.gather(producer_task, *consumer_tasks)] has completed: the
    executor returns [results]. *)
Definition returned (p : pipeline) : bool :=
  match producer p with
  | ProducerDone => forallb exited (consumers p)
  | _ => false
  end.

(** End markers still in the queue, and consumers that have taken one. *)
Definition markers (q : list (option Rec)) : nat :=
  length (filter (fun x => x = None) q).

Definition exits (cs : list consumer) : nat :=
  length (filter (fun c => exited c = true) cs).

(** The end-of-stream protocol as the code runs it: the queue holds records
    and then at most one end marker, which the producer puts last; before
    that no consumer has left its loop, and after one consumer took the
    marker the queue stays empty. *)
Definition protocol (p : pipeline) : Prop :=
  match producer p with
  | Reading => exits (consumers p) = 0 /\ exists items, data_queue p = map Some items
  | Closing =>
      source p = [] /\ exits (consumers p) = 0
      /\ exists items, data_queue p = map Some items
  | ProducerDone =>
      source p = []
      /\ ((exits (consumers p) = 0
           /\ exists items, data_queue p = map Some items ++ [None])
          \/ (exits (consumers p) = 1 /\ data_queue p = []))
  end.




End Executor.

Arguments consumer Rec : clear implicits.
Arguments pipeline Rec Res Env : clear implicits.

Section Numbering.
Context {Rec Res Env : Type}.

(** [tag] reads the worker and the sequence number a result carries. *)
Variable tag : Res -> option (nat * nat).

(** The sequence numbers of the results of worker [w], in the order of
    [results]. *)
Definition numbers_of (w : nat) (rs : list Res) : list nat :=
  omap (fun r => match tag r with
                 | Some (w', n) => if decide (w' = w) then Some n else None
                 | None => None
                 end) rs.

(** Every worker's results carry the numbers 1, 2, ... up to its count of
    processed items, and every result is tagged with an existing worker. *)
Definition numbered (p : pipeline Rec Res Env) : Prop :=
  (forall w, numbers_of w (results p)
             = seq 1 (from_option processed_count 0 (consumers p !! w)))
  /\ Forall (fun r => exists w n, tag r = Some (w, n) /\ w < length (consumers p))
            (results p).

End Numbering.

Arguments numbers_of {Res} tag w rs.

End Pipeline.

(** * JSON Lines files (DataHandler._load_jsonl and the other line loops) *)

Module Jsonl.

(** A line of a file as the loops over files see it: after [line.strip()]
    it is empty, or [json.loads] rejects it, or it parses to [data]. *)
Inductive line (A : Type) : Type :=
  | Blank
  | Malformed (text : string)
  | Parsed (data : A).
Arguments Blank {A}.
Arguments Malformed {A} text.
Arguments Parsed {A} data.

Section Loading.
Context {A : Type}.

(** [start_line is not None and line_num < start_line] and
    [end_line is not None and line_num > end_line] *)
Definition before_start (line_num : nat) (start_line : option Z) : bool :=
  match start_line with
  | Some s => (Z.of_nat line_num <? s)%Z
  | None => false
  end.

Definition after_end (line_num : nat) (end_line : option Z) : bool :=
  match end_line with
  | Some e => (e <? Z.of_nat line_num)%Z
  | None => false
  end.

(** The loop of [DataHandler._load_jsonl] from line [line_num] on: empty
    lines are skipped before the range is looked at, a non-empty line past
    [end_line] ends the loop, a line that does not parse prints a warning. *)
Fixpoint load_lines (line_num : nat) (lines : list (line A))
    (start_line end_line : option Z) : list console * list A :=
  match lines with
  | [] => ([], [])
  | Blank :: rest => load_lines (S line_num) rest start_line end_line
  | Malformed _ :: rest =>
      if before_start line_num start_line then
        load_lines (S line_num) rest start_line end_line
      else if after_end line_num end_line then ([], [])
      else
        let '(log, data_list) := load_lines (S line_num) rest start_line end_line in
        (Warning :: log, data_list)
  | Parsed data :: rest =>
      if before_start line_num start_line then
        load_lines (S line_num) rest start_line end_line
      else if after_end line_num end_line then ([], [])
      else
        let '(log, data_list) := load_lines (S line_num) rest start_line end_line in
        (log, data :: data_list)
  end.

(** [DataHandler._load_jsonl] on the lines of an existing file *)
Definition _load_jsonl (lines : list (line A)) (start_line end_line : option Z)
  : list console * list A :=
  let '(log, data_list) := load_lines 1 lines start_line end_line in
  (log ++ [Info], data_list).

(** [JsonlHandler.load_jsonl_as_list]: the same loop without a range *)
Fixpoint load_jsonl_as_list_loop (lines : list (line A)) : list console * list A :=
  match lines with
  | [] => ([], [])
  | Blank :: rest => load_jsonl_as_list_loop rest
  | Malformed _ :: rest =>
      let '(log, data_list) := load_jsonl_as_list_loop rest in (Warning :: log, data_list)
  | Parsed data :: rest =>
      let '(log, data_list) := load_jsonl_as_list_loop rest in (log, data :: data_list)
  end.

Definition load_jsonl_as_list (lines : list (line A)) : list console * list A :=
  let '(log, data_list) := load_jsonl_as_list_loop lines in
  (log ++ [Info], data_list).


(** [DataHandler._save_jsonl]: one line per item *)
Definition _save_jsonl (data : list A) : list (line A) := map Parsed data.

(** The records and the non-empty lines of a file. *)
Definition records (lines : list (line A)) : list A :=
  omap (fun l => match l with Parsed data => Some data | _ => None end) lines.



(** The physical lines numbered [start_line] to [end_line], from 1. *)
Definition window (lines : list (line A)) (start_line end_line : Z) : list (line A) :=
  drop (Z.to_nat start_line - 1) (take (Z.to_nat end_line) lines).

(** [DataHandler.load_data] for a JSONL file, on the lines of the file:
    the argument checks in the order of the code, the loader, then the
    selection by mode. *)
Definition load_data_jsonl (randbits : nat -> nat) (lines : list (line A))
    (mode : DataHandler.ReadMode) (count : option Z) (fill_with_first : bool)
    (start_line end_line : option Z) : list console * result (list A) :=
  let needs_count :=
    match mode with
    | DataHandler.FULL_LOAD => false
    | _ => true
    end in
  let non_positive (x : option Z) :=
    match x with
    | Some v => (v <=? 0)%Z
    | None => false
    end in
  if needs_count && negb (bool_decide (is_Some count)) then ([], Raise ValueError)
  else if non_positive count then ([], Raise ValueError)
  else if non_positive start_line then ([], Raise ValueError)
  else if non_positive end_line then ([], Raise ValueError)
  else if match start_line, end_line with
          | Some s, Some e => (e <? s)%Z
          | _, _ => false
          end then ([], Raise ValueError)
  else
    let '(log, raw_data) := _load_jsonl lines start_line end_line in
    let '(log', selected) :=
      DataHandler._process_data_by_mode randbits raw_data mode count fill_with_first in
    (log ++ log', selected).

End Loading.

End Jsonl.

(** * JSON documents and the line rewriting tools *)

Module JsonDoc.

(** A parsed JSON document; an object keeps its keys in insertion order,
    as a Python [dict] does. *)
#[warnings="-register-all"]
Inductive json : Type :=
  | JNull
  | JBool (b : bool)
  | JNum (n : Q)
  | JStr (s : string)
  | JList (items : list json)
  | JObj (fields : list (string * json)).

(** [key in d], [d.get(key)] and [d[key] = v] on a dictionary with string
    keys: an existing key keeps its place, a new key goes last. *)
Fixpoint obj_get {V : Type} (key : string) (d : list (string * V)) : option V :=
  match d with
  | [] => None
  | (k, v) :: d' => if String.eqb k key then Some v else obj_get key d'
  end.

Fixpoint obj_set {V : Type} (key : string) (v : V) (d : list (string * V))
  : list (string * V) :=
  match d with
  | [] => [(key, v)]
  | (k, x) :: d' =>
      if String.eqb k key then (k, v) :: d' else (k, x) :: obj_set key v d'
  end.









End JsonDoc.

(** * Accounting of records in the pipeline *)

Module Accounting.

Section Records.
Context {Rec : Type}.

(** The record a consumer holds while its call of the consumer function
    is pending. *)
Definition held (c : Pipeline.consumer Rec) : list Rec :=
  match Pipeline.state c with
  | Pipeline.Processing data => [data]
  | _ => []
  end.

(** How many consumers are inside a call, and the records waiting in the
    queue. *)
Definition in_flight (cs : list (Pipeline.consumer Rec)) : nat :=
  sum_list_with (fun c => length (held c)) cs.

Definition queued (q : list (option Rec)) : list Rec := omap id q.

End Records.

(** What is left to do: records inside a call, in the queue and unread. *)
Definition pending {Rec Res Env : Type} (p : Pipeline.pipeline Rec Res Env) : nat :=
  in_flight (Pipeline.consumers p) + length (queued (Pipeline.data_queue p))
  + length (Pipeline.source p).

Section Order.
Context {Rec Res Env : Type}.

(** [origin] tells which record a result was computed from. *)
Variable origin : Res -> Rec.


End Order.

(** A consumer function that returns the record it was given. *)
Definition echo {Rec : Type} (data : Rec) (worker_id request_num : nat) (e : unit)
  : unit * result Rec := (e, Ok data).


End Accounting.

(** * What the report is generated from *)

Module Outcomes.

Section Requests.
Context {R : Type}.

(** [sum(status_counts.values())] *)
Definition counts_total (counts : list (value R * nat)) : nat :=
  foldr (fun kc acc => kc.2 + acc) 0 counts.

(** A value that can be a dictionary key, and one that can be compared
    with [0]. *)
Definition hashable (v : value R) : bool :=
  match v with
  | VDict _ => false
  | _ => true
  end.

Definition is_number (v : value R) : bool :=
  match v with
  | VInt _ | VFloat _ => true
  | _ => false
  end.

(** A response dictionary [generate_report] can count: its status, 0 when
    absent, is hashable and its duration, 0 when absent, is a number. *)
Definition reportable (d : dict R) : bool :=
  hashable (dict_get_default "status" (VInt 0) d)
  && is_number (dict_get_default "duration_ms" (VInt 0) d).

(** A response dictionary as the client records them: the status is an
    integer and the duration a number. *)
Definition integer_key (v : value R) : bool :=
  match v with
  | VInt _ => true
  | _ => false
  end.

Definition client_outcome (d : dict R) : bool :=
  integer_key (dict_get_default "status" (VInt 0) d)
  && is_number (dict_get_default "duration_ms" (VInt 0) d).

End Requests.


End Outcomes.

(** * The executor with one worker, and the loop it amounts to *)

Module Sequential.

Section Loop.
Context {Rec Res Env : Type}.
Variable consumer_func : Rec -> nat -> nat -> Env -> Env * result Res.

(** One turn of the plain loop over the records, as worker 0 runs it:
    [result = consumer_func(data, 0, processed_count + 1)], appended and
    counted unless the call raised. *)
Definition turn (s : Env * list Res * nat) (data : Rec) : Env * list Res * nat :=
  let '(e, results, processed_count) := s in
  match consumer_func data 0 (processed_count + 1) e with
  | (e', Ok result) => (e', results ++ [result], processed_count + 1)
  | (e', Raise _) => (e', results, processed_count)
  end.

Definition loop (records : list Rec) (e : Env) : Env * list Res * nat :=
  foldl turn (e, [], 0) records.

(** The single consumer has run the loop over the records [completed],
    which come first in the source; then come the record inside its call,
    the queued records and the unread ones. *)
Definition sequential (e : Env) (records : list Rec)
    (p : Pipeline.pipeline Rec Res Env) : Prop :=
  exists c0 completed,
    Pipeline.consumers p = [c0]
    /\ completed ++ Accounting.held c0
         ++ Accounting.queued (Pipeline.data_queue p) ++ Pipeline.source p
       = records
    /\ loop completed e
       = (Pipeline.env p, Pipeline.results p, Pipeline.processed_count c0).

End Loop.

End Sequential.

(** * Request headers (_create_headers, _add_request_id_to_headers, mask_header) *)

Module Headers.

Import JsonDoc.

(** Header names and values in insertion order. *)
Definition headers : Type := list (string * string).

(** [RESTInferenceClient._create_headers]: the caller's headers, or the
    default ones when there are none, with the Authorization header set
    from [self.api_key], or from [self.config['api_key']] when that is
    [None] or empty; [None] when the configuration has no such key
    (KeyError). *)
Definition _create_headers (api_key : option string) (config_api_key : option string)
    (custom : option headers) : option headers :=
  let request_headers :=
    match custom with
    | Some (header :: rest) => header :: rest
    | _ => [("Content-Type"%string, "application/json"%string)]
    end in
  key ← match api_key with
        | Some (String c s) => Some (String c s)
        | _ => config_api_key
        end;
  Some (obj_set "Authorization" ("Bearer " ++ key)%string request_headers).

(** [AsyncHttpClient._add_request_id_to_headers] *)
Definition _add_request_id_to_headers (given : option headers)
    (request_id : option string) : headers :=
  let new_headers := default [] given in
  match request_id with
  | Some (String c s) => obj_set "X-Client-Request-ID" (String c s) new_headers
  | _ => new_headers
  end.

(** [str.lower()] on the letters A to Z. *)
Definition lower_char (c : Ascii.ascii) : Ascii.ascii :=
  let n := Ascii.N_of_ascii c in
  if ((65 <=? n) && (n <=? 90))%N then Ascii.ascii_of_N (n + 32) else c.

Fixpoint lower (s : string) : string :=
  match s with
  | EmptyString => EmptyString
  | String c s' => String (lower_char c) (lower s')
  end.

(** [mask_header] of [_print_headers_with_request_id], and the text of the
    header line it is used for. *)
Definition mask_header (key value : string) : string :=
  if String.eqb (lower key) "authorization" then
    if String.prefix "Bearer " value then (key ++ ": Bearer ***")%string
    else (key ++ ": ***")%string
  else (key ++ ": " ++ value)%string.

Definition header_str (hs : headers) : string :=
  String.concat ", " (map (fun kv => mask_header kv.1 kv.2) hs).

(** The headers of a request the client posts: those of
    [_create_headers], with the request id the HTTP client adds. *)
Definition sent_headers (api_key config_api_key : option string)
    (custom : option headers) (request_id : string) : option headers :=
  request_headers ← _create_headers api_key config_api_key custom;
  Some (_add_request_id_to_headers (Some request_headers) (Some request_id)).

End Headers.

(** * Requests from a list (RESTInferenceClient.inference_concurrent_requests) *)

Module ListPath.

Section Requests.
Context {R : Type}.

(** What one turn of the loop over the prepared requests did: the
    dictionaries passed to the report generator, those handed to the
    writer, and the exception that left the loop, if any. *)
Record turned : Type := {
  recorded : list (dict R);
  written : list (dict R);
  raised : option exn
}.

(** The [except Exception as e] branch of the loop; [so_far] is what the
    [try] block had recorded.  With a writer that is not running,
    [write_data] raises inside the handler and the exception leaves the
    method. *)
Definition on_exception (writer_running : option bool) (now : R) (i : nat)
    (so_far : list (dict R)) (e : exn) : turned :=
  let error_response :=
    [("status", VInt 500); ("error", VStr (Client.exn_text e));
     ("request_id", VStr "unknown"); ("duration_ms", VInt 0)] in
  let error_data :=
    [("request_num", VInt (Z.of_nat (i + 1)));
     ("request_id", VStr "unknown"); ("error", VStr (Client.exn_text e));
     ("timestamp", VFloat now)] in
  match writer_running with
  | None => {| recorded := so_far ++ [error_response]; written := []; raised := None |}
  | Some true =>
      {| recorded := so_far ++ [error_response]; written := [error_data];
         raised := None |}
  | Some false =>
      {| recorded := so_far ++ [error_response]; written := [];
         raised := Some RuntimeError |}
  end.





End Requests.

Arguments turned R : clear implicits.

End ListPath.

(** * Reading modes of the client (inference_concurrent_requests_with_mode) *)

Module WithMode.

Section Modes.
Context {R Rec : Type}.

(** [DataHandler.load_data] of a JSON handler: the same argument checks
    as for JSON Lines, then the whole document, the line range being
    ignored; [document] is what [_load_json] returns or raises. *)
Definition load_data_json (randbits : nat -> nat) (document : result (list Rec))
    (mode : DataHandler.ReadMode) (count : option Z) (fill_with_first : bool)
    (start_line end_line : option Z) : result (list Rec) :=
  let needs_count :=
    match mode with
    | DataHandler.FULL_LOAD => false
    | _ => true
    end in
  let non_positive (x : option Z) :=
    match x with
    | Some v => (v <=? 0)%Z
    | None => false
    end in
  if needs_count && negb (bool_decide (is_Some count)) then Raise ValueError
  else if non_positive count then Raise ValueError
  else if non_positive start_line then Raise ValueError
  else if non_positive end_line then Raise ValueError
  else if match start_line, end_line with
          | Some s, Some e => (e <? s)%Z
          | _, _ => false
          end then Raise ValueError
  else
    raw_data ← document;
    (DataHandler._process_data_by_mode randbits raw_data mode count fill_with_first).2.

(** How a call of [inference_concurrent_requests_with_mode] ends. *)
Inductive outcome : Type :=
  | Completed (p : Pipeline.pipeline Rec (dict R) (Client.world R))
      (* the executor ran over the file *)
  | Unsupported                            (* ValueError: the file type *)
  | LoadFailed (e : exn)                   (* [load_data] raised *)
  | NoSuchMethod (request_bodies : list Rec).
      (* AttributeError: the class has no [test_concurrent_requests] *)

(** [RESTInferenceClient.inference_concurrent_requests_with_mode] on a
    file with extension [file_ext], whose lines are [lines] when it is
    read as JSON Lines and whose document is [document] when it is read
    as JSON.  Full-load mode without a line range streams the file
    through the executor with one worker (its records are not [None]);
    every other case loads the request bodies and then calls
    [self.test_concurrent_requests], which the class does not define. *)
Definition inference_concurrent_requests_with_mode (randbits : nat -> nat)
    (file_ext : string) (lines : list (Jsonl.line Rec)) (document : result (list Rec))
    (read_mode : DataHandler.ReadMode) (count : option Z) (rate_limit : Z)
    (buffer_size : option Z) (fill_with_first : bool) (start_line end_line : option Z)
    (e : Client.world R) (schedule : list Pipeline.event) : outcome :=
  let buffer_size :=
    match buffer_size with
    | None => (rate_limit * 10)%Z
    | Some size => size
    end in
  let handler :=
    if bool_decide (file_ext = ".jsonl") then
      Some (Jsonl.records lines,
            (Jsonl.load_data_jsonl randbits lines read_mode count fill_with_first
               start_line end_line).2)
    else if bool_decide (file_ext = ".json") then
      Some (match document with Ok items => items | Raise _ => [] end,
            load_data_json randbits document read_mode count fill_with_first
              start_line end_line)
    else None in
  match handler with
  | None => Unsupported
  | Some (stream, loaded) =>
      match read_mode, start_line, end_line with
      | DataHandler.FULL_LOAD, None, None =>
          Completed (Pipeline.run Client.consumer_func schedule
                       (Pipeline.executor stream buffer_size 1 e))
      | _, _, _ =>
          match loaded with
          | Ok request_bodies => NoSuchMethod request_bodies
          | Raise x => LoadFailed x
          end
      end
  end.

End Modes.

Arguments outcome R Rec : clear implicits.

End WithMode.

(** * The environment configuration (RESTInferenceClient._load_env_config) *)

Module EnvConfig.

Import JsonDoc.

(** [bool(v)] for a parsed JSON value (numbers are the finite ones). *)
Definition truthy (v : json) : bool :=
  match v with
  | JNull => false
  | JBool b => b
  | JNum n => negb (Qeq_bool n 0)
  | JStr s => negb (String.eqb s "")
  | JList items => match items with [] => false | _ => true end
  | JObj fields => match fields with [] => false | _ => true end
  end.

(** A value as a dictionary key: [True] and [1] are the same key, as are
    [1] and [1.0]; a list or a dictionary is not hashable. *)
Inductive key : Type :=
  | KNull
  | KNum (n : Q)
  | KStr (s : string).

Definition key_of (v : json) : option key :=
  match v with
  | JNull => Some KNull
  | JBool b => Some (KNum (if b then 1 else 0))
  | JNum n => Some (KNum n)
  | JStr s => Some (KStr s)
  | JList _ | JObj _ => None
  end.

Definition key_eqb (a b : key) : bool :=
  match a, b with
  | KNull, KNull => true
  | KNum x, KNum y => Qeq_bool x y
  | KStr x, KStr y => String.eqb x y
  | _, _ => false
  end.

(** [env_counts.get(env)] and [env_counts[env] = c] *)
Fixpoint counts_get (k : key) (env_counts : list (key * nat)) : option nat :=
  match env_counts with
  | [] => None
  | (k', c) :: rest => if key_eqb k' k then Some c else counts_get k rest
  end.

Fixpoint counts_set (k : key) (c : nat) (env_counts : list (key * nat))
  : list (key * nat) :=
  match env_counts with
  | [] => [(k, c)]
  | (k', c') :: rest =>
      if key_eqb k' k then (k', c) :: rest else (k', c') :: counts_set k c rest
  end.

(** Why the method fails; every failure leaves it as
    [Exception("加载环境配置失败: ...")]. *)
Inductive failure : Type :=
  | NotADictionary                           (* AttributeError: [config.get] *)
  | UnhashableEnv                            (* TypeError: the env as a key *)
  | Conflict (conflicts : list (key * nat))  (* ValueError: repeated names *)
  | NoName                                   (* KeyError: ['name'] *)
  | NotFound (available_envs : list key).    (* ValueError: no such env *)

(** The first loop: count every configuration under its env, when it has
    one that is true. *)
Fixpoint count_envs (configs : list json) (env_counts : list (key * nat))
  : failure + list (key * nat) :=
  match configs with
  | [] => inr env_counts
  | JObj d :: rest =>
      match obj_get "env" d with
      | Some env =>
          if truthy env then
            match key_of env with
            | Some k =>
                count_envs rest
                  (counts_set k (default 0 (counts_get k env_counts) + 1) env_counts)
            | None => inl UnhashableEnv
            end
          else count_envs rest env_counts
      | None => count_envs rest env_counts
      end
  | _ :: _ => inl NotADictionary
  end.

(** [config.get('env') == env_name] *)
Definition is_env (env_name : string) (config : json) : bool :=
  match config with
  | JObj d =>
      match obj_get "env" d with
      | Some (JStr s) => String.eqb s env_name
      | _ => false
      end
  | _ => false
  end.

(** [RESTInferenceClient._load_env_config] on the configurations
    [JsonlHandler.load_jsonl_as_list] returns. *)
Definition _load_env_config (configs : list json) (env_name : string)
  : failure + json :=
  match count_envs configs [] with
  | inl f => inl f
  | inr env_counts =>
      match List.filter (fun kc : key * nat => 1 <? kc.2) env_counts with
      | conflict :: conflicts => inl (Conflict (conflict :: conflicts))
      | [] =>
          match List.find (is_env env_name) configs with
          | Some (JObj d) =>
              if truthy (JObj d) then
                match obj_get "name" d with
                | Some _ => inr (JObj d)
                | None => inl NoName
                end
              else inl (NotFound (map fst env_counts))
          | _ => inl (NotFound (map fst env_counts))
          end
      end
  end.

(** Whether a configuration is counted under the key [k], and how many
    are. *)
Definition has_env (k : key) (config : json) : bool :=
  match config with
  | JObj d =>
      match obj_get "env" d with
      | Some env =>
          truthy env && match key_of env with
                        | Some k' => key_eqb k' k
                        | None => false
                        end
      | None => false
      end
  | _ => false
  end.

Definition occurrences (k : key) (configs : list json) : nat :=
  length (List.filter (has_env k) configs).

(** A configuration the first loop accepts: a dictionary whose env, when
    it is true, is hashable. *)
Definition countable (config : json) : bool :=
  match config with
  | JObj d =>
      match obj_get "env" d with
      | Some env => negb (truthy env) || bool_decide (is_Some (key_of env))
      | None => true
      end
  | _ => false
  end.

(** No two entries of the counts have the same key. *)
Fixpoint distinct (env_counts : list (key * nat)) : Prop :=
  match env_counts with
  | [] => True
  | (k, _) :: rest => counts_get k rest = None /\ distinct rest
  end.

End EnvConfig.

(** * Properties *)

Import DataHandler.

Section SelectionFacts.
Context {A : Type}.
Implicit Types (raw_data pool : list A) (x : A).

Lemma append_times_replicate k x raw_data :
  append_times k x raw_data = raw_data ++ replicate k x.
Proof.
  revert raw_data; induction k as [|k IH]; intros raw_data; simpl.
  - by rewrite app_nil_r.
  - by rewrite IH, <- app_assoc.
Qed.

Lemma slice_to_nonneg raw_data (n : Z) :
  (0 <= n)%Z -> slice_to raw_data n = take (Z.to_nat n) raw_data.
Proof. intros Hn. unfold slice_to. by rewrite (proj2 (Z.leb_le 0 n) Hn). Qed.

(** [load_data] lets a count through to the selection only when it is
    positive. *)
Lemma load_data_positive_count randbits raw_data mode (n : Z) fill :
  load_data randbits raw_data mode (Some n) fill
  = if (n <=? 0)%Z then ([], Raise ValueError)
    else _process_data_by_mode randbits raw_data mode (Some n) fill.
Proof. unfold load_data. by destruct mode. Qed.





(** C7. In exact-count mode on a non-empty source: with at least [n]
    records the result is the first [n] records in source order; with fewer
    and fill enabled it is the whole source followed by copies of the first
    record, of length [n] (three records requested as five give the three
    records and two copies of the first); with fill disabled the short
    list is returned as it is. *)
Theorem specified_count_selection randbits raw_data (n : Z) :
  raw_data <> [] -> (0 <= n)%Z ->
  ((n <= Z.of_nat (length raw_data))%Z -> forall fill,
     (_process_data_by_mode randbits raw_data SPECIFIED_COUNT (Some n) fill).2
     = Ok (take (Z.to_nat n) raw_data)
     /\ length (take (Z.to_nat n) raw_data) = Z.to_nat n)
  /\ ((Z.of_nat (length raw_data) < n)%Z ->
      exists first_item rest padded,
        raw_data = first_item :: rest
        /\ (_process_data_by_mode randbits raw_data SPECIFIED_COUNT (Some n) true).2
           = Ok padded
        /\ padded = raw_data ++ replicate (Z.to_nat n - length raw_data) first_item
        /\ length padded = Z.to_nat n)
  /\ ((Z.of_nat (length raw_data) < n)%Z ->
      (_process_data_by_mode randbits raw_data SPECIFIED_COUNT (Some n) false).2
      = Ok raw_data)
  /\ (forall a b c : A,
      (_process_data_by_mode randbits [a; b; c] SPECIFIED_COUNT (Some 5%Z) true).2
      = Ok [a; b; c; a; a]).
Proof.
  intros Hne Hn. destruct raw_data as [|first_item rest]; [done|].
  split; [|split; [|split]].
  - intros Henough fill. split; [|rewrite length_take; lia].
    unfold _process_data_by_mode.
    rewrite (proj2 (Z.leb_le _ _) Henough). simpl. by rewrite slice_to_nonneg.
  - intros Hshort. exists first_item, rest.
    exists ((first_item :: rest)
              ++ replicate (Z.to_nat n - length (first_item :: rest)) first_item).
    split; [done|]. unfold _process_data_by_mode.
    rewrite (proj2 (Z.leb_gt _ _) Hshort). simpl.
    rewrite append_times_replicate. split; [|split].
    + simpl. do 4 f_equal. lia.
    + reflexivity.
    + rewrite length_app, length_replicate. simpl length in *. lia.
  - intros Hshort. unfold _process_data_by_mode.
    by rewrite (proj2 (Z.leb_gt _ _) Hshort).
  - reflexivity.
Qed.


End SelectionFacts.

(** A run of random-n: the draws 1 and 3 pick the second record, then the
    first of the three left. *)
Example random_n_run :
  _process_data_by_mode (fun i => 2 * i + 1) [10; 20; 30; 40] RANDOM_N (Some 2%Z) true
  = ([Info], Ok [20; 10]).
Proof. reflexivity. Qed.

Lemma specified_count_selection_witness :
  (_process_data_by_mode (fun i => i) [10; 20; 30] SPECIFIED_COUNT (Some 5%Z) true).2
  = Ok [10; 20; 30; 10; 10].
Proof.
  destruct (specified_count_selection (A := nat) (fun i => i) [10; 20; 30] 5)
    as (_ & _ & _ & Hex); [done | lia | apply Hex].
Defined.


(** ** The report generator *)

Import Report.

Section PercentileFacts.

Implicit Types (d : list Q) (p : Z).

Lemma py_index_nonneg {A : Type} (l : list A) (i : Z) (x : A) :
  (0 <= i)%Z -> l !! Z.to_nat i = Some x -> py_index l i = Ok x.
Proof.
  intros Hi Hx. unfold py_index.
  rewrite (proj2 (Z.ltb_ge i 0) Hi), (proj2 (Z.ltb_ge i 0) Hi). by rewrite Hx.
Qed.

(** The index the code computes is the fraction p(n-1)/100, unreduced. *)
Lemma index_parts p (m : Z) :
  let index := num_mul (num_div (of_Z p) (of_Z 100)) (of_Z m) in
  Qnum index = (p * m)%Z /\ Qden index = 100%positive.
Proof. simpl. unfold Qdiv, Qmult, Qinv; simpl. split; [lia | reflexivity]. Qed.

Lemma percentile_unfold (x : Q) d p :
  _percentile (x :: d) p =
    let data := x :: d in
    let index := num_mul (num_div (of_Z p) (of_Z 100))
                   (of_Z (Z.of_nat (length data) - 1)) in
    match to_int index with
    | None => Raise ValueError
    | Some int_index =>
        if is_integer index then py_index data int_index
        else
          lower ← py_index data int_index;
          upper ← py_index data (int_index + 1);
          Ok (num_add lower
                (num_mul (num_sub upper lower) (num_sub index (of_Z int_index))))
    end.
Proof. reflexivity. Qed.

(** Rank arithmetic: for a percentile between 0 and 100 the truncated
    index stays inside the list, and its successor does too whenever the
    index is not integral. *)
Lemma rank_bounds p (m : Z) :
  (0 <= p <= 100)%Z -> (0 <= m)%Z ->
  (0 <= p * m / 100 <= m)%Z
  /\ ((p * m) mod 100 <> 0 -> p * m / 100 + 1 <= m)%Z.
Proof.
  intros Hp Hm.
  assert (0 <= p * m)%Z as Hpm by lia.
  assert (p * m <= 100 * m)%Z as Hle by nia.
  pose proof (Z.div_mod (p * m) 100 ltac:(lia)) as Hdm.
  pose proof (Z.mod_pos_bound (p * m) 100 ltac:(lia)) as Hmod.
  split; [split|]; [apply Z.div_pos; lia | lia | lia].
Qed.

Lemma hundredths_floor (q : Q) (N : Z) :
  Qnum q = N -> Qden q = 100%positive ->
  Qfloor q = (N / 100)%Z
  /\ Qceiling q = (- (- N / 100))%Z
  /\ forall k : Z, Qeq_bool q (inject_Z k) = (N * 1 =? k * 100)%Z.
Proof. destruct q as [a b]; simpl; intros -> ->. done. Qed.

(** On exact rationals the code computes the percentile the specification
    describes, and never indexes outside the list. *)
Lemma percentile_refines_spec d p :
  d <> [] -> (0 <= p <= 100)%Z ->
  exists lower, d !! Z.to_nat (p * (Z.of_nat (length d) - 1) / 100) = Some lower
  /\ ((p * (Z.of_nat (length d) - 1)) mod 100 = 0 ->
        _percentile d p = Ok lower /\ percentile_spec d p = Some lower)%Z
  /\ ((p * (Z.of_nat (length d) - 1)) mod 100 <> 0 ->
      exists upper,
        d !! S (Z.to_nat (p * (Z.of_nat (length d) - 1) / 100)) = Some upper
        /\ let v := (lower + (upper - lower)
                       * ((inject_Z p / inject_Z 100)
                            * inject_Z (Z.of_nat (length d) - 1)
                          - inject_Z (p * (Z.of_nat (length d) - 1) / 100)))%Q in
           _percentile d p = Ok v /\ percentile_spec d p = Some v)%Z.
Proof.
  intros Hne Hp. destruct d as [|x d]; [done|].
  set (data := x :: d). set (m := (Z.of_nat (length data) - 1)%Z).
  assert (0 <= m)%Z as Hm by (unfold m, data; simpl length; lia).
  destruct (rank_bounds p m Hp Hm) as [[Hk0 Hk] Hk1].
  destruct (index_parts p m) as [Hnum Hden]. cbv zeta in Hnum, Hden.
  destruct (hundredths_floor _ _ Hnum Hden) as (Hfloor & Hceil & Heqb).
  destruct (lookup_lt_is_Some_2 data (Z.to_nat (p * m / 100))) as [lower Hlower];
    [unfold m in *; lia|].
  set (index := num_mul (num_div (of_Z p) (of_Z 100)) (of_Z m)) in *.
  assert (_percentile data p =
            if ((p * m) mod 100 =? 0)%Z then py_index data (p * m / 100)
            else
              lo ← py_index data (p * m / 100);
              hi ← py_index data (p * m / 100 + 1);
              Ok (lo + (hi - lo) * (index - inject_Z (p * m / 100)))%Q) as ->.
  { unfold data. rewrite percentile_unfold. cbv zeta.
    change (Z.of_nat (length (x :: d)) - 1)%Z with m. fold index.
    change (to_int index) with (Some (Z.quot (Qnum index) (Z.pos (Qden index)))).
    change (is_integer index) with (Qnum index mod Z.pos (Qden index) =? 0)%Z.
    rewrite Hnum, Hden, Z.quot_div_nonneg by lia. reflexivity. }
  exists lower. split; [done|].
  unfold percentile_spec. fold m.
  change ((inject_Z p / inject_Z 100) * inject_Z m)%Q with index.
  rewrite Hfloor, Heqb.
  split.
  - intros Hint. rewrite (proj2 (Z.eqb_eq _ _) Hint).
    assert (p * m * 1 = p * m / 100 * 100)%Z as Hexact.
    { pose proof (Z.div_mod (p * m) 100 ltac:(lia)). lia. }
    rewrite (proj2 (Z.eqb_eq _ _) Hexact).
    split; [by apply py_index_nonneg | done].
  - intros Hfrac. pose proof (Hk1 Hfrac) as Hnext.
    destruct (lookup_lt_is_Some_2 data (S (Z.to_nat (p * m / 100)))) as [upper Hupper];
      [unfold m in *; lia|].
    exists upper. split; [done|].
    rewrite (proj2 (Z.eqb_neq _ _) Hfrac).
    assert (p * m * 1 <> p * m / 100 * 100)%Z as Hinexact.
    { pose proof (Z.div_mod (p * m) 100 ltac:(lia)). lia. }
    rewrite (proj2 (Z.eqb_neq _ _) Hinexact), Hceil.
    rewrite Z.div_opp_l_nz by lia.
    replace (Z.to_nat (- (- (p * m / 100) - 1))) with (S (Z.to_nat (p * m / 100))) by lia.
    rewrite Hlower, Hupper. simpl.
    rewrite (py_index_nonneg data _ lower Hk0 Hlower).
    rewrite (py_index_nonneg data (p * m / 100 + 1) upper);
      [done | lia |].
    by replace (Z.to_nat (p * m / 100 + 1)) with (S (Z.to_nat (p * m / 100))) by lia.
Qed.

(** On a list in ascending order the interpolated value lies between the
    two entries it is computed from. *)
Lemma interpolation_between (lower upper index : Q) (k : Z) :
  (lower <= upper)%Q -> (inject_Z k <= index)%Q -> (index <= inject_Z k + 1)%Q ->
  (lower <= lower + (upper - lower) * (index - inject_Z k) <= upper)%Q.
Proof. intros Hlu Hlo Hhi. split; nra. Qed.

Lemma hundredths_bracket (q : Q) (N : Z) :
  Qnum q = N -> Qden q = 100%positive ->
  (inject_Z (N / 100) <= q <= inject_Z (N / 100) + 1)%Q.
Proof.
  destruct q as [a b]; simpl; intros -> ->.
  pose proof (Z.div_mod N 100 ltac:(lia)).
  pose proof (Z.mod_pos_bound N 100 ltac:(lia)).
  unfold Qle; simpl. lia.
Qed.

(** Between two entries in ascending order, the percentile the code
    computes lies between them. *)
Lemma percentile_between_brackets d p (lower upper : Q) :
  d <> [] -> (0 <= p <= 100)%Z ->
  ((p * (Z.of_nat (length d) - 1)) mod 100 <> 0)%Z ->
  d !! Z.to_nat (p * (Z.of_nat (length d) - 1) / 100) = Some lower ->
  d !! S (Z.to_nat (p * (Z.of_nat (length d) - 1) / 100)) = Some upper ->
  (lower <= upper)%Q ->
  exists v, _percentile d p = Ok v /\ (lower <= v <= upper)%Q.
Proof.
  intros Hne Hp Hfrac Hlower Hupper Hle.
  destruct (percentile_refines_spec d p Hne Hp) as (lower' & Hlower' & _ & Hinterp).
  destruct (Hinterp Hfrac) as (upper' & Hupper' & Hv & _).
  assert (lower' = lower) as -> by congruence.
  assert (upper' = upper) as -> by congruence.
  eexists. split; [exact Hv|].
  destruct (index_parts p (Z.of_nat (length d) - 1)) as [Hnum Hden].
  apply interpolation_between; [done|..]; by apply hundredths_bracket.
Qed.

(** In binary64 the index is classified as integral, and truncated, as the
    exact quotient p(n-1)/100 is, for the five percentiles of the report and
    every list of up to 2000 durations. *)
Lemma float_index_agrees :
  forallb (fun p => forallb (fun n => float_index_exact p (Z.of_nat n)) (seq 1 2000))
          [50; 80; 90; 95; 99]%Z = true.
Proof. vm_compute. reflexivity. Qed.

(** C6. For a non-empty list of durations and a percentile of the report,
    the percentile function returns the entry at index (p/100)*(n-1) when
    that index is integral and the linear interpolation between the two
    bracketing entries otherwise, as the specification words it; the
    median of 10, 20, 30, 40 is 25 and every percentile of the single
    duration 5 is 5, also in binary64 arithmetic. *)
Theorem percentile_interpolation :
  (forall d p, d <> [] -> p ∈ [50; 80; 90; 95; 99]%Z ->
     exists lower, d !! Z.to_nat (p * (Z.of_nat (length d) - 1) / 100) = Some lower
     /\ ((p * (Z.of_nat (length d) - 1)) mod 100 = 0 ->
           _percentile d p = Ok lower /\ percentile_spec d p = Some lower)%Z
     /\ ((p * (Z.of_nat (length d) - 1)) mod 100 <> 0 ->
         exists upper,
           d !! S (Z.to_nat (p * (Z.of_nat (length d) - 1) / 100)) = Some upper
           /\ let v := (lower + (upper - lower)
                          * ((inject_Z p / inject_Z 100)
                               * inject_Z (Z.of_nat (length d) - 1)
                             - inject_Z (p * (Z.of_nat (length d) - 1) / 100)))%Q in
              _percentile d p = Ok v /\ percentile_spec d p = Some v)%Z)
  /\ _percentile [10; 20; 30; 40]%float 50 = Ok 25%float
  /\ (exists v, _percentile [10#1; 20#1; 30#1; 40#1]%Q 50 = Ok v /\ (v == 25#1)%Q)
  /\ Forall (fun p => _percentile [5%float] p = Ok 5%float
                      /\ _percentile [5#1]%Q p = Ok (5#1)%Q)
            [50; 80; 90; 95; 99]%Z.
Proof.
  split; [|split; [|split]].
  - intros d p Hne Hp. apply percentile_refines_spec; [done|].
    repeat (apply elem_of_cons in Hp as [->|Hp]; [lia|]).
    by apply elem_of_nil in Hp.
  - vm_compute. reflexivity.
  - eexists. split; [vm_compute; reflexivity | reflexivity].
  - repeat constructor; vm_compute; reflexivity.
Qed.

Lemma percentile_interpolation_witness :
  exists lower, [3#1; 7#1; 9#1]%Q !! Z.to_nat (50 * (Z.of_nat 3 - 1) / 100) = Some lower
  /\ _percentile [3#1; 7#1; 9#1]%Q 50 = Ok lower.
Proof.
  destruct percentile_interpolation as (Hgen & _).
  destruct (Hgen [3#1; 7#1; 9#1]%Q 50%Z) as (lower & Hlower & Hint & _);
    [done | repeat constructor |].
  exists lower. split; [exact Hlower | apply Hint; reflexivity].
Defined.

End PercentileFacts.

Section ReportFacts.

Implicit Types (requests : list (dict Q)) (durations : list Q).


Lemma py_div_nonzero (a b : Q) :
  ~ (b == 0)%Q -> py_div a b = Ok (a / b)%Q.
Proof.
  intros Hb. unfold py_div. simpl.
  destruct (Qeq_bool b (inject_Z 0)) eqn:E; [|done].
  by apply Qeq_bool_eq in E.
Qed.


Lemma py_div_positive_count (a : Q) (n : nat) :
  0 < n -> py_div a (of_Z (Z.of_nat n)) = Ok (a / inject_Z (Z.of_nat n))%Q.
Proof.
  intros Hn. apply py_div_nonzero. simpl. unfold Qeq; simpl. lia.
Qed.










End ReportFacts.


(** ** The buffered writer *)

Import Sink.

Section SinkFacts.
Context {Item : Type}.
Implicit Types (w : writer Item) (s : system Item) (d : Item).

Lemma writer_step_is_running now w :
  is_running (writer_step now w) = is_running w.
Proof.
  unfold writer_step. destruct (writer_task w) as [[| |]|]; try done.
  - destruct (write_queue w) as [|[d|] q]; done.
  - simpl. repeat case_match; done.
Qed.

Lemma writer_step_queue_length now w :
  length (write_queue (writer_step now w)) <= length (write_queue w).
Proof.
  unfold writer_step. destruct (writer_task w) as [[| |]|]; try done.
  - destruct (write_queue w) as [|[d|] q] eqn:E; simpl; rewrite ?E; simpl; lia.
  - simpl. repeat case_match; simpl; lia.
Qed.


(** When the loop has written a line it flushes if and only if one of
    its two conditions holds, and a condition whose parameter is zero never
    holds. *)
Lemma writer_step_flush_decision now w :
  writer_task w = Some Wrote ->
  flushes (output (writer_step now w))
  = flushes (output w)
    + (if count_due w || time_due now w then 1 else 0).
Proof.
  intros Htask. unfold writer_step. rewrite Htask. simpl.
  change (count_due (with_total (total_written w + 1) w)) with (count_due w).
  change (time_due now (with_total (total_written w + 1) w)) with (time_due now w).
  destruct (count_due w), (time_due now w); simpl; lia.
Qed.

Lemma zero_disables_trigger now w :
  (flush_count w = 0%Z -> count_due w = false)
  /\ ((flush_interval w == 0)%Q -> time_due now w = false).
Proof.
  split.
  - intros Hz. unfold count_due. by rewrite Hz.
  - intros Hz. unfold time_due.
    assert (Qle_bool (flush_interval w) 0 = true) as ->; [|done].
    apply Qle_bool_iff. rewrite Hz. apply Qle_refl.
Qed.














(** Scheduling the writer task does not touch [is_running]; a caller
    whose program ends in [stop] followed by a write reaches that write
    only with [is_running] cleared. *)
Lemma after_stop_not_running (d : Item) s e :
  (raised s = None ->
   (program s = [Write d] /\ is_running (sink s) = false)
   \/ exists pre c, program s = pre ++ [c; Write d] /\ (c = Stop \/ c = Join)) ->
  raised (step s e) = None ->
  (program (step s e) = [Write d] /\ is_running (sink (step s e)) = false)
  \/ exists pre c, program (step s e) = pre ++ [c; Write d] /\ (c = Stop \/ c = Join).
Proof.
  intros Hinv Hraised. destruct e as [|now]; simpl in *.
  - unfold caller_step in *.
    destruct (raised s) as [e|] eqn:Er; [by rewrite Er in Hraised|].
    destruct (Hinv eq_refl) as [[Hprog Hrun]|(pre & c & Hprog & Hc)]; rewrite Hprog in *.
    + simpl in *. unfold write_data in *. by rewrite Hrun in *.
    + destruct pre as [|x pre]; simpl in *.
      * destruct Hc as [-> | ->].
        -- unfold stop_put. destruct (is_running (sink s)) eqn:Hrun; simpl.
           ++ right. destruct (full (sink s)); simpl.
              ** rewrite Hprog. exists [], Stop. auto.
              ** exists [], Join. auto.
           ++ by left.
        -- unfold stop_join.
           destruct (writer_task (sink s)) as [[| |]|]; simpl;
             try (by left); right; rewrite Hprog; exists [], Join; auto.
      * right. destruct x as [|d'| |].
        -- by exists pre, c.
        -- destruct (write_data d' (sink s)) as [[| |e] w']; simpl in *.
           ++ by exists pre, c.
           ++ rewrite Hprog. by exists (Write d' :: pre), c.
           ++ done.
        -- destruct (stop_put (sink s)) as [[[| |e] w']|]; simpl;
             rewrite ?Hprog.
           ++ by exists (Join :: pre), c.
           ++ by exists (Stop :: pre), c.
           ++ by exists (Stop :: pre), c.
           ++ by exists pre, c.
        -- destruct (stop_join (sink s)) as [[| |e] w']; simpl;
             rewrite ?Hprog.
           ++ by exists pre, c.
           ++ by exists (Join :: pre), c.
           ++ by exists (Join :: pre), c.
  - rewrite writer_step_is_running. by apply Hinv.
Qed.

Lemma after_stop_run (d : Item) schedule s :
  (raised s = None ->
   (program s = [Write d] /\ is_running (sink s) = false)
   \/ exists pre c, program s = pre ++ [c; Write d] /\ (c = Stop \/ c = Join)) ->
  raised (run schedule s) = None ->
  (program (run schedule s) = [Write d] /\ is_running (sink (run schedule s)) = false)
  \/ exists pre c, program (run schedule s) = pre ++ [c; Write d] /\ (c = Stop \/ c = Join).
Proof.
  revert s; induction schedule as [|e schedule IH]; intros s Hinv Hraised; [auto|].
  simpl in *. apply IH; [|done]. intros Hr. by apply after_stop_not_running.
Qed.

(** C10. [write_data] on a writer that is not running raises RuntimeError
    and changes nothing, the queue and the counter included: so it is
    before [start] is called, and once [stop] has returned, in every
    interleaving of the caller with the writer task. *)
Theorem write_data_requires_running :
  (forall w d, is_running w = false ->
     write_data d w = (Failed RuntimeError, w))
  /\ (forall bs fc fi (existing : list Item) d,
        write_data d (init bs fc fi existing)
        = (Failed RuntimeError, init bs fc fi existing))
  /\ (forall w w' d, stop_join w = (Done, w') ->
        write_data d w' = (Failed RuntimeError, w'))
  /\ (forall w0 pre d schedule,
        let s := run schedule
                   {| sink := w0; program := pre ++ [Stop; Write d]; raised := None |} in
        raised s = None -> program s = [Write d] ->
        caller_step s
        = {| sink := sink s; program := [Write d]; raised := Some RuntimeError |}).
Proof.
  assert (forall w d, is_running w = false ->
            write_data d w = (Failed RuntimeError, w)) as Hraise.
  { intros w d Hrun. unfold write_data. by rewrite Hrun. }
  split; [done|]. split; [intros; by apply Hraise|]. split.
  - intros w w' d Hjoin. apply Hraise. unfold stop_join in Hjoin.
    destruct (writer_task w) as [[| |]|]; by inversion Hjoin.
  - intros w0 pre d schedule s Hraised Hprog.
    destruct (after_stop_run d schedule
                {| sink := w0; program := pre ++ [Stop; Write d]; raised := None |})
      as [[_ Hrun]|(pre' & c & Hshape & _)]; [|done| |].
    + intros _. right. exists pre, Stop. auto.
    + unfold caller_step. fold s. rewrite Hraised, Hprog, (Hraise _ _ Hrun). done.
    + fold s in Hshape. rewrite Hprog in Hshape. by destruct pre' as [|? [|? ?]].
Qed.

End SinkFacts.


Lemma write_data_requires_running_witness :
  caller_step (run (replicate 3 Caller ++ round_robin 3)
                 {| sink := init 10 10 (1#1) [];
                    program := [Start; Write 5] ++ [Stop; Write 7];
                    raised := None |})
  = {| sink := sink (run (replicate 3 Caller ++ round_robin 3)
                       {| sink := init 10 10 (1#1) [];
                          program := [Start; Write 5] ++ [Stop; Write 7];
                          raised := None |});
       program := [Write 7]; raised := Some RuntimeError |}.
Proof.
  destruct (@write_data_requires_running nat) as (_ & _ & _ & Hafter).
  apply (Hafter (init 10 10 (1#1) []) [Start; Write 5] 7
           (replicate 3 Caller ++ round_robin 3)); vm_compute; reflexivity.
Defined.

(** C4 on the code: with flush count 2 and the time trigger disabled, a
    caller whose items are each written out before the next arrives gets no
    flush at all after three items: the count condition reads the queue
    length, which is 0 each time, and not the number of items written since
    the last flush. *)
Lemma count_trigger_reads_queue_length :
  let s := run [Caller; Caller; Writer 5; Writer 5;
                Caller; Writer 6; Writer 6;
                Caller; Writer 7; Writer 7]
             (session (init 10 2 0 []) [1; 2; 3]) in
  total_written (sink s) = 3
  /\ flushes (output (sink s)) = 0
  /\ buffered (output (sink s)) = [1; 2; 3]
  /\ durable (output (sink s)) = []
  /\ program s = [Stop].
Proof. vm_compute. done. Qed.

(** ** The pipeline *)

Import Pipeline.

Section PipelineFacts.
Context {Rec Res Env : Type}.
Variable consumer_func : Rec -> nat -> nat -> Env -> Env * result Res.
Implicit Types (p : pipeline Rec Res Env) (c : consumer Rec) (cs : list (consumer Rec)).

Lemma exits_insert cs w c c' :
  cs !! w = Some c ->
  exits (<[w := c']> cs) + (if exited c then 1 else 0)
  = exits cs + (if exited c' then 1 else 0).
Proof.
  revert w; induction cs as [|c0 cs IH]; intros [|w] Hw; simpl in *; try done.
  - injection Hw as ->. unfold exits. rewrite !filter_cons.
    destruct (exited c), (exited c'); repeat case_decide; simpl; try done; lia.
  - specialize (IH w Hw). unfold exits in *. rewrite !filter_cons.
    case_decide; simpl; lia.
Qed.

Lemma exits_all cs : forallb exited cs = true -> exits cs = length cs.
Proof.
  induction cs as [|c cs IH]; simpl; [done|].
  intros [Hc Hcs]%andb_prop. unfold exits in *. rewrite filter_cons.
  rewrite decide_True by done. simpl. by rewrite IH.
Qed.

Lemma exits_replicate_waiting n :
  exits (replicate n {| state := Waiting; processed_count := 0 |}
         : list (consumer Rec)) = 0.
Proof. induction n as [|n IH]; [done|]. unfold exits in *. simpl. by rewrite filter_cons. Qed.

Lemma consumer_step_length w p :
  length (consumers (consumer_step consumer_func w p)) = length (consumers p).
Proof.
  unfold consumer_step. destruct (consumers p !! w) as [c|]; [|done].
  destruct (state c); [destruct (data_queue p) as [|[d|] q]| |]; simpl;
    rewrite ?length_insert; try done.
  destruct (consumer_func _ _ _ _) as [e [r|x]]; simpl; by rewrite length_insert.
Qed.

Lemma step_length p e :
  length (consumers (step consumer_func p e)) = length (consumers p).
Proof.
  destruct e as [|w]; simpl; [|apply consumer_step_length].
  unfold producer_step. repeat case_match; done.
Qed.

Lemma run_length schedule p :
  length (consumers (run consumer_func schedule p)) = length (consumers p).
Proof.
  revert p; induction schedule as [|e schedule IH]; intros p; [done|].
  simpl. by rewrite IH, step_length.
Qed.


Lemma protocol_producer_step p : protocol p -> protocol (producer_step p).
Proof.
  unfold protocol, producer_step. intros Hp.
  destruct (producer p) eqn:Eprod.
  - destruct Hp as (Hex & items & Hq).
    destruct (source p) as [|data rest] eqn:Esrc; simpl; [by eauto|].
    destruct (queue_full p); simpl; rewrite ?Eprod; [by eauto|].
    split; [done|]. exists (items ++ [data]). by rewrite Hq, map_app.
  - destruct Hp as (Hsrc & Hex & items & Hq).
    destruct (queue_full p); simpl; rewrite ?Eprod; [by eauto|].
    split; [done|]. left. split; [done|]. exists items. by rewrite Hq.
  - by rewrite Eprod.
Qed.

Lemma protocol_consumer_step w p : protocol p -> protocol (consumer_step consumer_func w p).
Proof.
  unfold consumer_step. intros Hp.
  destruct (consumers p !! w) as [c|] eqn:Ec; [|done].
  destruct (state c) as [|data|] eqn:Est; [| |done].
  - destruct (data_queue p) as [|[data|] q] eqn:Eq; [done| |].
    + (* a record is taken *)
      pose proof (exits_insert (consumers p) w c
                    {| state := Processing data; processed_count := processed_count c |} Ec)
        as Hex.
      unfold exited in Hex. simpl in Hex. rewrite Est in Hex.
      unfold protocol in *. simpl. rewrite Eq in Hp.
      destruct (producer p).
      * destruct Hp as (Hz & [|x items] & Hq); [done|]. injection Hq as _ ->.
        split; [lia|eauto].
      * destruct Hp as (Hsrc & Hz & [|x items] & Hq); [done|]. injection Hq as _ ->.
        split; [done|]. split; [lia|eauto].
      * destruct Hp as (Hsrc & [(Hz & [|x items] & Hq)|(_ & Hq)]); try done.
        injection Hq as _ ->. split; [done|]. left. split; [lia|eauto].
    + (* the end marker is taken *)
      pose proof (exits_insert (consumers p) w c
                    {| state := Exited; processed_count := processed_count c |} Ec)
        as Hex.
      unfold exited in Hex. simpl in Hex. rewrite Est in Hex.
      unfold protocol in *. simpl. rewrite Eq in Hp.
      destruct (producer p).
      * by destruct Hp as (_ & [|x items] & Hq).
      * by destruct Hp as (_ & _ & [|x items] & Hq).
      * destruct Hp as (Hsrc & [(Hz & [|x items] & Hq)|(_ & Hq)]); try done.
        injection Hq as ->. split; [done|]. right. split; [lia|done].
  - (* the call of the consumer function completes *)
    assert (forall n, exits (<[w := {| state := Waiting; processed_count := n |}]>
                               (consumers p)) = exits (consumers p)) as Hex.
    { intros n.
      pose proof (exits_insert (consumers p) w c
                    {| state := Waiting; processed_count := n |} Ec) as Hex.
      unfold exited in Hex. simpl in Hex. rewrite Est in Hex. lia. }
    destruct (consumer_func _ _ _ _) as [e [r|x]]; unfold protocol in *; simpl;
      rewrite Hex; exact Hp.
Qed.

Lemma protocol_run schedule p : protocol p -> protocol (run consumer_func schedule p).
Proof.
  revert p; induction schedule as [|e schedule IH]; intros p Hp; [done|].
  simpl. apply IH. destruct e; [by apply protocol_producer_step|].
  by apply protocol_consumer_step.
Qed.

Lemma protocol_executor (records : list Rec) buffer_size max_workers (e : Env) :
  protocol (executor records buffer_size max_workers e : pipeline Rec Res Env).
Proof.
  unfold protocol. simpl. split; [apply exits_replicate_waiting|]. by exists [].
Qed.

(** When the executor returns, with one consumer, the source has been read
    to its end and the queue is empty. *)
Lemma returned_drained p :
  protocol p -> returned p = true ->
  source p = [] /\ length (consumers p) <= 1
  /\ (consumers p <> [] -> data_queue p = []).
Proof.
  unfold protocol, returned. intros Hp Hret.
  destruct (producer p); [done..|].
  apply exits_all in Hret. destruct Hp as (Hsrc & [(Hz & _)|(Hone & Hq)]).
  - split; [done|]. split; [lia|]. intros Hne. destruct (consumers p); simpl in *; [done|lia].
  - split; [done|]. split; [lia|done].
Qed.


Lemma consumer_step_frame w p :
  producer (consumer_step consumer_func w p) = producer p
  /\ source (consumer_step consumer_func w p) = source p
  /\ length (data_queue (consumer_step consumer_func w p)) <= length (data_queue p).
Proof.
  unfold consumer_step. destruct (consumers p !! w) as [c|]; [|done].
  destruct (state c); [destruct (data_queue p) as [|[d|] q] eqn:Eq| |]; simpl;
    rewrite ?Eq; simpl; try (repeat split; (done || lia)).
  destruct (consumer_func _ _ _ _) as [e [r|x]]; done.
Qed.









Section Numbered.
Variable tag : Res -> option (nat * nat).
Hypothesis consumer_func_tags :
  forall data w n e e' r, consumer_func data w n e = (e', Ok r) -> tag r = Some (w, n).

Lemma numbers_of_app w (rs : list Res) r :
  numbers_of tag w (rs ++ [r])
  = numbers_of tag w rs
    ++ match tag r with
       | Some (w', n) => if decide (w' = w) then [n] else []
       | None => []
       end.
Proof.
  unfold numbers_of. rewrite omap_app. f_equal. simpl.
  destruct (tag r) as [[w' n]|]; [|done]. by case_decide.
Qed.

Lemma numbered_step p e : numbered tag p -> numbered tag (step consumer_func p e).
Proof.
  intros [Hnum Htag]. destruct e as [|w0]; simpl.
  - unfold producer_step. repeat case_match; done.
  - unfold consumer_step.
    destruct (consumers p !! w0) as [c|] eqn:Ec; [|done].
    apply lookup_lt_Some in Ec as Hlt.
    assert (forall st q e', numbered tag
              ({| source := source p; maxsize := maxsize p; data_queue := q;
                  producer := producer p;
                  consumers := <[w0 := {| state := st;
                                          processed_count := processed_count c |}]>
                                 (consumers p);
                  results := results p; env := e' |} : pipeline Rec Res Env)) as Hsame.
    { intros st. assert (forall w,
        from_option processed_count 0
          (<[w0 := {| state := st; processed_count := processed_count c |}]>
             (consumers p) !! w)
        = from_option processed_count 0 (consumers p !! w)) as Hcount.
      { intros w. destruct (decide (w = w0)) as [->|Hne].
        - by rewrite list_lookup_insert_eq, Ec.
        - by rewrite list_lookup_insert_ne. }
      intros q e'. split; simpl;
        [intros w; by rewrite Hnum, Hcount | by rewrite length_insert]. }
    destruct (state c) as [|data|] eqn:Est; [| |done].
    + destruct (data_queue p) as [|[d|] q]; [done| |]; apply Hsame.
    + destruct (consumer_func _ _ _ _) as [e' [r|x]] eqn:Ecall; [|apply Hsame].
      apply consumer_func_tags in Ecall as Hr.
      split; simpl.
      * intros w. rewrite numbers_of_app, Hr, Hnum.
        destruct (decide (w0 = w)) as [<-|Hne].
        -- rewrite list_lookup_insert_eq, Ec by done. simpl.
           by rewrite Nat.add_1_r, seq_S.
        -- rewrite list_lookup_insert_ne by done. by rewrite app_nil_r.
      * rewrite length_insert. apply Forall_app. split; [done|].
        apply Forall_singleton. eauto.
Qed.

Lemma numbered_run schedule p :
  numbered tag p -> numbered tag (run consumer_func schedule p).
Proof.
  revert p; induction schedule as [|e schedule IH]; intros p Hp; [done|].
  simpl. by apply IH, numbered_step.
Qed.

Lemma numbered_executor (records : list Rec) buffer_size max_workers (e : Env) :
  numbered tag (executor records buffer_size max_workers e : pipeline Rec Res Env).
Proof.
  split; simpl; [|done]. intros w. unfold numbers_of. simpl.
  destruct (replicate max_workers _ !! w) as [c|] eqn:Ec; [|done].
  by apply lookup_replicate in Ec as [-> _].
Qed.

(** If each worker's numbers do not repeat, no (worker, number) pair does. *)
Lemma tags_NoDup (rs : list Res) :
  (forall w, NoDup (numbers_of tag w rs)) -> NoDup (omap tag rs).
Proof.
  induction rs as [|r rs IH]; intros Hw; [constructor|].
  assert (forall w, NoDup (numbers_of tag w rs)) as Hrs.
  { intros w. specialize (Hw w). unfold numbers_of in *. simpl in Hw.
    destruct (tag r) as [[w' n]|]; [|done].
    case_decide; [by apply NoDup_cons in Hw as [_ ?]|done]. }
  simpl. destruct (tag r) as [[w n]|] eqn:Er; [|by apply IH].
  apply NoDup_cons. split; [|by apply IH].
  intros Hin. specialize (Hw w). unfold numbers_of in Hw. simpl in Hw.
  rewrite Er, decide_True in Hw by done.
  apply NoDup_cons in Hw as [Hn _]. apply Hn.
  apply list_elem_of_omap in Hin as (r' & Hr' & Htag).
  apply list_elem_of_omap. exists r'. split; [done|].
  by rewrite Htag, decide_True.
Qed.

(** With a single worker every result belongs to worker 0. *)
Lemma numbers_of_single (rs : list Res) :
  Forall (fun r => exists w n, tag r = Some (w, n) /\ w < 1) rs ->
  map tag rs = map (fun n => Some (0, n)) (numbers_of tag 0 rs).
Proof.
  induction 1 as [|r rs (w & n & Hr & Hw) _ IH]; [done|].
  unfold numbers_of in *. simpl. rewrite Hr.
  assert (w = 0) as -> by lia. simpl. by rewrite IH.
Qed.

End Numbered.

End PipelineFacts.

(** ** The inference client as the pipeline's consumer *)

Import Client.

Section ClientFacts.
Context {R : Type}.

Lemma consumer_func_tag_of {Rec : Type} (data : Rec) (w n : nat)
    (e e' : world R) (r : dict R) :
  consumer_func data w n e = (e', Ok r) -> tag_of r = Some (w, n).
Proof.
  unfold consumer_func, http_inference_consumer, on_exception.
  intros Hcall. injection Hcall as _ Hret.
  destruct (post _ _ _) as [response|x]; destruct (writer_running e) as [[|]|];
    simpl in Hret; try done; injection Hret as <-;
    unfold tag_of; simpl; by rewrite !Nat2Z.id.
Qed.

(** C1, as the code has it. The sequence number the pipeline passes to the
    consumer is the consumer worker's own count: for every worker the
    numbers carried by its results are 1, 2, ... in the order they were
    appended, so no (worker, number) pair repeats in a run; with a single
    consumer worker the numbers of all results are 1, 2, ..., N in the
    order of the results. *)
Theorem sequence_numbers_per_consumer {Rec : Type} (records : list Rec) buffer_size
    max_workers (e : world R) schedule :
  (forall w,
     numbers_of tag_of w
       (results (run consumer_func schedule (executor records buffer_size max_workers e)))
     = seq 1 (from_option processed_count 0
                (consumers (run consumer_func schedule
                              (executor records buffer_size max_workers e)) !! w)))
  /\ NoDup (omap tag_of
              (results (run consumer_func schedule
                          (executor records buffer_size max_workers e))))
  /\ length (omap tag_of
               (results (run consumer_func schedule
                           (executor records buffer_size max_workers e))))
     = length (results (run consumer_func schedule
                          (executor records buffer_size max_workers e)))
  /\ (max_workers = 1 ->
      map tag_of (results (run consumer_func schedule
                             (executor records buffer_size max_workers e)))
      = map (fun n => Some (0, n))
          (seq 1 (length (results (run consumer_func schedule
                                     (executor records buffer_size max_workers e)))))).
Proof.
  set (p := run consumer_func schedule (executor records buffer_size max_workers e)).
  assert (numbered tag_of p) as [Hnum Htag].
  { apply numbered_run; [apply @consumer_func_tag_of | apply numbered_executor]. }
  split; [done|]. split; [|split].
  - apply tags_NoDup. intros w. rewrite Hnum. apply NoDup_seq.
  - clear Hnum. induction Htag as [|r rs (w & n & Hr & _) _ IH]; [done|].
    simpl. rewrite Hr. simpl. by f_equal.
  - intros Hone.
    assert (length (consumers p) = 1) as Hlen.
    { unfold p. rewrite run_length. simpl. by rewrite length_replicate. }
    rewrite Hlen in Htag.
    rewrite (numbers_of_single tag_of (results p) Htag).
    assert (length (numbers_of tag_of 0 (results p)) = length (results p)) as Hsame.
    { rewrite <- (length_map tag_of (results p)),
        (numbers_of_single tag_of (results p) Htag). by rewrite length_map. }
    rewrite <- Hsame, Hnum. by rewrite length_seq.
Qed.

(** C5, as the code has it. When the exchange breaks and the writer is
    absent or running, the consumer returns normally a dictionary with the
    worker, the sequence number, the request id "unknown" and the error
    text; it records in the aggregator the failure outcome with status
    500, the error text and duration 0; and it hands to the writer, when
    there is one, a line with the worker, the sequence number, the request
    id "unknown", the error text and the time. *)
Theorem transport_failure_outcome (running : option bool) (msg uuid : string)
    (duration now : R) (worker_id request_num : nat) :
  running <> Some false ->
  returned (http_inference_consumer running (Broken msg) uuid duration now
              worker_id request_num)
  = Ok [("worker_id", VInt (Z.of_nat worker_id));
        ("request_num", VInt (Z.of_nat request_num));
        ("request_id", VStr "unknown"); ("error", VStr msg)]
  /\ recorded (http_inference_consumer running (Broken msg) uuid duration now
                 worker_id request_num)
     = [[("status", VInt 500); ("error", VStr msg);
         ("request_id", VStr "unknown"); ("duration_ms", VInt 0)]]
  /\ written (http_inference_consumer running (Broken msg) uuid duration now
                worker_id request_num)
     = match running with
       | Some _ =>
           [[("worker_id", VInt (Z.of_nat worker_id));
             ("request_num", VInt (Z.of_nat request_num));
             ("request_id", VStr "unknown"); ("error", VStr msg);
             ("timestamp", VFloat now)]]
       | None => []
       end.
Proof. intros Hrun. by destruct running as [[|]|]. Qed.

End ClientFacts.

Lemma transport_failure_outcome_witness :
  recorded (http_inference_consumer (Some true) (Broken "connection refused")
              "0f3a" (0#1)%Q (17#1)%Q 0 3)
  = [[("status", VInt 500); ("error", VStr "connection refused");
      ("request_id", VStr "unknown"); ("duration_ms", VInt 0)]].
Proof.
  destruct (transport_failure_outcome (Some true) "connection refused" "0f3a"
              (0#1)%Q (17#1)%Q 0 3) as (_ & Hrec & _); [done | exact Hrec].
Defined.

(** The failure outcome is counted under status 500 and, its duration being
    0, enters no duration statistic. *)
Lemma failure_counted_not_timed (msg : string) :
  exists rep : report (R := Q),
    generate_report [[("status", VInt 500); ("error", VStr msg);
                      ("request_id", VStr "unknown"); ("duration_ms", VInt 0)]]
    = Ok rep
    /\ total_requests rep = 1
    /\ status_code_counts rep = [(VInt 500, 1)]
    /\ duration_stats rep = None.
Proof. eexists. split; [reflexivity|]. done. Qed.

(** C5 as stated fails on the code: for a broken exchange neither the
    dictionary the consumer returns nor the line it hands to the writer
    carries a status or a duration, while the line of a successful exchange
    carries the whole response; and with a writer that is not running the
    exception of [write_data] leaves the consumer. *)
Lemma failure_line_lacks_status :
  (exists result line,
     returned (http_inference_consumer (Some true) (Broken "connection refused")
                 "0f3a" (0#1)%Q (17#1)%Q 0 3) = Ok result
     /\ written (http_inference_consumer (Some true) (Broken "connection refused")
                   "0f3a" (0#1)%Q (17#1)%Q 0 3) = [line]
     /\ dict_get "status" result = None /\ dict_get "duration_ms" result = None
     /\ dict_get "status" line = None /\ dict_get "duration_ms" line = None
     /\ dict_get "response" line = None)
  /\ (exists line,
        written (http_inference_consumer (Some true)
                   (Replied 503 (VStr "busy") []) "0f3a" (12#1)%Q (17#1)%Q 0 3) = [line]
        /\ dict_get "response" line
           = Some (VDict [("status", VInt 503); ("data", VStr "busy");
                          ("headers", VDict []); ("request_id", VStr "0f3a");
                          ("duration_ms", VFloat (12#1)%Q)]))
  /\ returned (http_inference_consumer (Some false) (Broken "connection refused")
                 "0f3a" (0#1)%Q (17#1)%Q 0 3) = Raise RuntimeError.
Proof. split; [|split]; repeat eexists. Qed.

(** C1 as stated fails on the code: with two consumer workers and two
    records, each worker numbers its record 1. *)
Lemma two_workers_repeat_numbers :
  map (dict_get "request_num")
    (results (run consumer_func
                [Produce; Produce; Consume 0; Consume 1; Consume 0; Consume 1]
                (executor ["a"; "b"]%string 10 2 quiet_world)))
  = [Some (VInt 1); Some (VInt 1)]
  /\ map (dict_get "worker_id")
       (results (run consumer_func
                   [Produce; Produce; Consume 0; Consume 1; Consume 0; Consume 1]
                   (executor ["a"; "b"]%string 10 2 quiet_world)))
     = [Some (VInt 0); Some (VInt 1)].
Proof. vm_compute. done. Qed.

Lemma sequence_numbers_per_consumer_witness :
  map tag_of
    (results (run consumer_func
                [Produce; Produce; Consume 0; Consume 0; Consume 0; Consume 0]
                (executor ["a"; "b"]%string 10 1 quiet_world)))
  = [Some (0, 1); Some (0, 2)].
Proof.
  destruct (sequence_numbers_per_consumer ["a"; "b"]%string 10 1 quiet_world
              [Produce; Produce; Consume 0; Consume 0; Consume 0; Consume 0])
    as (_ & _ & _ & Hone).
  rewrite (Hone eq_refl). vm_compute. reflexivity.
Defined.

(** ** JSON Lines files *)

Import Jsonl.

Section JsonlFacts.
Context {A : Type}.
Implicit Types (lines : list (line A)).

Lemma records_length lines : length (records lines) <= length lines.
Proof.
  induction lines as [|[| |] lines IH]; simpl; lia.
Qed.

(** From line [n] on, the loader keeps the records of the lines whose
    number lies between [start_line] and [end_line]. *)
Lemma load_lines_window lines (n : nat) (s e : Z) :
  (load_lines n lines (Some s) (Some e)).2
  = records (drop (Z.to_nat s - n) (take (Z.to_nat (e + 1) - n) lines)).
Proof.
  revert n; induction lines as [|l lines IH]; intros n.
  - by rewrite take_nil, drop_nil.
  - assert ((load_lines (S n) lines (Some s) (Some e)).2
            = records (drop (Z.to_nat s - S n) (take (Z.to_nat (e + 1) - S n) lines)))
      as Hrest by apply IH.
    destruct (decide (Z.of_nat n < s)%Z) as [Hbefore|Hfrom].
    + (* before the range: the line is passed over *)
      assert (before_start n (Some s) = true) as Hb by (by apply Z.ltb_lt).
      assert ((load_lines n (l :: lines) (Some s) (Some e)).2
              = (load_lines (S n) lines (Some s) (Some e)).2) as ->.
      { destruct l; cbn [load_lines]; by rewrite ?Hb. }
      rewrite Hrest.
      destruct (Z.to_nat (e + 1) - n) as [|k] eqn:Ek.
      * replace (Z.to_nat (e + 1) - S n) with 0 by lia.
        by rewrite !take_0, !drop_nil.
      * replace (Z.to_nat (e + 1) - S n) with k by lia.
        replace (Z.to_nat s - n) with (S (Z.to_nat s - S n)) by lia. done.
    + assert (before_start n (Some s) = false) as Hb by (by apply Z.ltb_ge; lia).
      replace (Z.to_nat s - n) with 0 by lia.
      replace (Z.to_nat s - S n) with 0 in Hrest by lia. simpl in Hrest.
      destruct (decide (Z.of_nat n <= e)%Z) as [Hin|Hafter].
      * (* inside the range *)
        assert (after_end n (Some e) = false) as Ha by (by apply Z.ltb_ge).
        replace (Z.to_nat (e + 1) - n) with (S (Z.to_nat (e + 1) - S n)) by lia.
        cbn [take drop]. 
        destruct l; cbn [load_lines records omap list_omap]; rewrite ?Hb, ?Ha;
          destruct (load_lines (S n) lines (Some s) (Some e)) as [log data_list];
          simpl in *; by rewrite ?Hrest.
      * (* past the range *)
        assert (after_end n (Some e) = true) as Ha by (by apply Z.ltb_lt; lia).
        replace (Z.to_nat (e + 1) - n) with 0 by lia.
        replace (Z.to_nat (e + 1) - S n) with 0 in Hrest by lia.
        destruct l; cbn [load_lines]; rewrite ?Hb, ?Ha; try done.
Qed.

Lemma load_lines_all lines (n : nat) :
  load_lines n lines None None = load_jsonl_as_list_loop lines.
Proof.
  revert n; induction lines as [|l lines IH]; intros n; [done|].
  destruct l; simpl; by rewrite IH.
Qed.

Lemma load_jsonl_as_list_records lines :
  (load_jsonl_as_list_loop lines).2 = records lines.
Proof.
  induction lines as [|l lines IH]; [done|].
  destruct l; simpl; try done;
    destruct (load_jsonl_as_list_loop lines); simpl in *; by rewrite ?IH.
Qed.

Lemma load_jsonl_window lines (s e : Z) :
  (1 <= s <= e)%Z ->
  (_load_jsonl lines (Some s) (Some e)).2 = records (window lines s e)
  /\ (_load_jsonl lines (Some s) (Some e)).2
     = (_load_jsonl (window lines s e) None None).2.
Proof.
  intros Hse.
  assert ((_load_jsonl lines (Some s) (Some e)).2 = records (window lines s e)) as Hw.
  { unfold _load_jsonl, window.
    pose proof (load_lines_window lines 1 s e) as Hl.
    destruct (load_lines 1 lines (Some s) (Some e)) as [log data_list].
    simpl in *. rewrite Hl. do 3 f_equal. lia. }
  split; [done|].
  rewrite Hw. unfold _load_jsonl. rewrite load_lines_all.
  pose proof (load_jsonl_as_list_records (window lines s e)) as Hr.
  destruct (load_jsonl_as_list_loop (window lines s e)). simpl in *. by rewrite Hr.
Qed.

(** X1. A line range selects by the number of the physical line, empty and
    unparsable lines counted: the loader returns the records of the lines
    numbered [start_line] to [end_line], and without a range the same
    records as [JsonlHandler.load_jsonl_as_list]. *)
Theorem load_jsonl_line_range lines (s e : Z) :
  (1 <= s <= e)%Z ->
  (_load_jsonl lines (Some s) (Some e)).2 = records (window lines s e)
  /\ (_load_jsonl lines (Some s) (Some e)).2
     = (_load_jsonl (window lines s e) None None).2
  /\ length (_load_jsonl lines (Some s) (Some e)).2 <= Z.to_nat (e - s + 1)
  /\ _load_jsonl lines None None = load_jsonl_as_list lines.
Proof.
  intros Hse. destruct (load_jsonl_window lines s e Hse) as [Hw Hsame].
  split; [done|]. split; [done|]. split.
  - rewrite Hw. unfold records, window.
    etrans; [apply records_length|].
    rewrite length_drop, length_take. lia.
  - unfold _load_jsonl, load_jsonl_as_list. by rewrite load_lines_all.
Qed.




End JsonlFacts.

Lemma load_jsonl_line_range_witness :
  (_load_jsonl [Parsed 10; Blank; Malformed "{"; Parsed 40; Parsed 50] (Some 2%Z) (Some 4%Z)).2
  = [40].
Proof.
  destruct (load_jsonl_line_range [Parsed 10; Blank; Malformed "{"; Parsed 40; Parsed 50] 2 4)
    as (Hw & _); [lia | exact Hw].
Defined.



(** ** The line rewriting tools *)

Import JsonDoc.

Section ModelFieldFacts.
Implicit Types (lines : list (line json)) (d : list (string * json)).

Lemma obj_get_set {V : Type} (key : string) (v : V) (d : list (string * V)) :
  obj_get key (obj_set key v d) = Some v.
Proof.
  induction d as [|[k x] d IH]; simpl; [by rewrite String.eqb_refl|].
  destruct (String.eqb k key) eqn:E; simpl; by rewrite E.
Qed.


(** Setting a field keeps every other field, and the order of the keys
    that were there. *)
Lemma obj_get_set_other {V : Type} (key key' : string) (v : V) (d : list (string * V)) :
  key <> key' -> obj_get key' (obj_set key v d) = obj_get key' d.
Proof.
  intros Hne. induction d as [|[k x] d IH]; simpl.
  - destruct (String.eqb key key') eqn:E; [by apply String.eqb_eq in E|done].
  - destruct (String.eqb k key) eqn:E; simpl; [|by rewrite IH].
    apply String.eqb_eq in E as ->.
    destruct (String.eqb key key') eqn:E'; [by apply String.eqb_eq in E'|done].
Qed.










End ModelFieldFacts.



(** ** Bounded queues and durability of the writer *)

Import Sink.

Section SinkBounds.
Context {Item : Type}.
Implicit Types (w : writer Item) (s : system Item).

Lemma writer_step_buffer_size now w :
  buffer_size (writer_step now w) = buffer_size w.
Proof.
  unfold writer_step. destruct (writer_task w) as [[| |]|]; try done.
  - by destruct (write_queue w) as [|[d|] q].
  - simpl. repeat case_match; done.
Qed.

Lemma caller_step_bounded s :
  (Z.of_nat (length (write_queue (sink s))) <= buffer_size (sink s))%Z ->
  buffer_size (sink (caller_step s)) = buffer_size (sink s)
  /\ (0 < buffer_size (sink s) ->
      Z.of_nat (length (write_queue (sink (caller_step s)))) <= buffer_size (sink s))%Z.
Proof.
  intros Hle. unfold caller_step.
  destruct (raised s); [done|]. destruct (program s) as [|[|d| |] rest]; [done|..].
  - unfold start. by destruct (is_running (sink s)).
  - unfold write_data, full. destruct (is_running (sink s)); simpl; [|done].
    destruct (0 <? buffer_size (sink s))%Z eqn:Hpos; simpl.
    + destruct (buffer_size (sink s) <=? _)%Z eqn:Hfull; simpl; [done|].
      apply Z.leb_gt in Hfull. split; [done|]. rewrite length_app. simpl. lia.
    + split; [done|]. apply Z.ltb_ge in Hpos. lia.
  - unfold stop_put, full. destruct (is_running (sink s)); simpl; [|done].
    destruct (0 <? buffer_size (sink s))%Z eqn:Hpos; simpl.
    + destruct (buffer_size (sink s) <=? _)%Z eqn:Hfull; simpl; [done|].
      apply Z.leb_gt in Hfull. split; [done|]. rewrite length_app. simpl. lia.
    + split; [done|]. apply Z.ltb_ge in Hpos. lia.
  - unfold stop_join. by destruct (writer_task (sink s)) as [[| |]|].
Qed.

(** X7. Backpressure of the writer: with a positive [buffer_size] the
    write queue never holds more than [buffer_size] entries, the end
    marker included, whatever the caller's program and the schedule. *)
Theorem write_queue_bounded s schedule :
  (0 < buffer_size (sink s))%Z ->
  (Z.of_nat (length (write_queue (sink s))) <= buffer_size (sink s))%Z ->
  buffer_size (sink (run schedule s)) = buffer_size (sink s)
  /\ (Z.of_nat (length (write_queue (sink (run schedule s)))) <= buffer_size (sink s))%Z.
Proof.
  revert s; induction schedule as [|e schedule IH]; intros s Hpos Hle; [done|].
  simpl.
  assert (buffer_size (sink (step s e)) = buffer_size (sink s)
          /\ (Z.of_nat (length (write_queue (sink (step s e)))) <= buffer_size (sink s))%Z)
    as [Hbs Hq].
  { destruct e as [|now]; simpl.
    - destruct (caller_step_bounded s Hle) as [? Hq]. split; [done|by apply Hq].
    - rewrite writer_step_buffer_size. split; [done|].
      pose proof (writer_step_queue_length now (sink s)). lia. }
  destruct (IH (step s e)) as [Hbs' Hq']; rewrite ?Hbs; try done.
  rewrite Hbs', Hbs. split; [done|]. by rewrite <- Hbs.
Qed.




End SinkBounds.

Lemma write_queue_bounded_witness :
  (Z.of_nat (length (write_queue (sink
     (run (replicate 9 Caller)
        (session (init 3 10 (1#1) []) (seq 1 25)))))) <= 3)%Z.
Proof.
  destruct (write_queue_bounded (session (init 3 10 (1#1) []) (seq 1 25))
              (replicate 9 Caller)) as [_ Hq]; [done | done | exact Hq].
Defined.
(** ** Accounting of records in the pipeline *)

Import Pipeline.
Import Accounting.

Section PipelineAccounting.
Context {Rec Res Env : Type}.
Variable consumer_func : Rec -> nat -> nat -> Env -> Env * result Res.
Implicit Types (p : pipeline Rec Res Env) (c : consumer Rec) (cs : list (consumer Rec)).

Lemma sum_list_with_insert {A : Type} (f : A -> nat) (l : list A) i x y :
  l !! i = Some x ->
  sum_list_with f (<[i := y]> l) + f x = sum_list_with f l + f y.
Proof.
  revert i; induction l as [|a l IH]; intros [|i] Hi; simpl in *; try done.
  - injection Hi as ->. lia.
  - specialize (IH i Hi). lia.
Qed.

(** The five things one scheduling of a consumer can do. *)
Lemma consumer_step_cases w p :
  consumer_step consumer_func w p = p
  \/ (exists c data q,
        consumers p !! w = Some c /\ state c = Waiting /\ data_queue p = Some data :: q
        /\ consumer_step consumer_func w p
           = with_consumer w
               {| state := Processing data; processed_count := processed_count c |}
               (with_data_queue q p))
  \/ (exists c q,
        consumers p !! w = Some c /\ state c = Waiting /\ data_queue p = None :: q
        /\ consumer_step consumer_func w p
           = with_consumer w
               {| state := Exited; processed_count := processed_count c |}
               (with_data_queue q p))
  \/ (exists c data e r,
        consumers p !! w = Some c /\ state c = Processing data
        /\ consumer_func data w (processed_count c + 1) (env p) = (e, Ok r)
        /\ consumer_step consumer_func w p
           = {| source := source p; maxsize := maxsize p; data_queue := data_queue p;
                producer := producer p;
                consumers :=
                  <[w := {| state := Waiting;
                            processed_count := processed_count c + 1 |}]> (consumers p);
                results := results p ++ [r]; env := e |})
  \/ (exists c data e x,
        consumers p !! w = Some c /\ state c = Processing data
        /\ consumer_func data w (processed_count c + 1) (env p) = (e, Raise x)
        /\ consumer_step consumer_func w p
           = {| source := source p; maxsize := maxsize p; data_queue := data_queue p;
                producer := producer p;
                consumers :=
                  <[w := {| state := Waiting;
                            processed_count := processed_count c |}]> (consumers p);
                results := results p; env := e |}).
Proof.
  unfold consumer_step. destruct (consumers p !! w) as [c|] eqn:Ec; [|by left].
  destruct (state c) as [|data|] eqn:Es; [| |by left].
  - destruct (data_queue p) as [|[data|] q] eqn:Eq; [by left| |].
    + right; left. by exists c, data, q.
    + right; right; left. by exists c, q.
  - destruct (consumer_func _ _ _ _) as [e [r|x]] eqn:Ecall.
    + right; right; right; left. by exists c, data, e, r.
    + right; right; right; right. by exists c, data, e, x.
Qed.

Lemma producer_step_bounded p :
  (0 < maxsize p)%Z ->
  (Z.of_nat (length (data_queue p)) <= maxsize p)%Z ->
  maxsize (producer_step p) = maxsize p
  /\ (Z.of_nat (length (data_queue (producer_step p))) <= maxsize p)%Z.
Proof.
  intros Hpos Hle. unfold producer_step, queue_full.
  destruct (producer p); [destruct (source p) as [|data rest]| |]; try done.
  - destruct (0 <? maxsize p)%Z eqn:E0; [|apply Z.ltb_ge in E0; lia]. simpl.
    destruct (maxsize p <=? _)%Z eqn:Efull; [done|]. simpl.
    apply Z.leb_gt in Efull. rewrite length_app. simpl. lia.
  - destruct (0 <? maxsize p)%Z eqn:E0; [|apply Z.ltb_ge in E0; lia]. simpl.
    destruct (maxsize p <=? _)%Z eqn:Efull; [done|]. simpl.
    apply Z.leb_gt in Efull. rewrite length_app. simpl. lia.
Qed.

Lemma consumer_step_maxsize w p :
  maxsize (consumer_step consumer_func w p) = maxsize p.
Proof.
  destruct (consumer_step_cases w p)
    as [->|[(?&?&?&_&_&_&->)|[(?&?&_&_&_&->)|[(?&?&?&?&_&_&_&->)|(?&?&?&?&_&_&_&->)]]]];
    done.
Qed.

(** X9. Backpressure of the pipeline: with a positive [buffer_size] the
    data queue never holds more than [buffer_size] entries, the end marker
    included, however many records the source has and however producer
    and consumers are scheduled. *)
Theorem data_queue_bounded (records : list Rec) buffer_size max_workers (e : Env)
    schedule :
  (0 < buffer_size)%Z ->
  (Z.of_nat (length (data_queue
     (run consumer_func schedule (executor records buffer_size max_workers e))))
   <= buffer_size)%Z.
Proof.
  intros Hpos.
  assert (forall p, maxsize p = buffer_size ->
            (Z.of_nat (length (data_queue p)) <= buffer_size)%Z ->
            (Z.of_nat (length (data_queue (run consumer_func schedule p)))
             <= buffer_size)%Z) as Hrun.
  { induction schedule as [|ev schedule IH]; intros p Hmax Hle; [done|].
    simpl. destruct ev as [|w]; simpl.
    - destruct (producer_step_bounded p) as [Hmax' Hle']; rewrite ?Hmax; try done.
      apply IH; [by rewrite Hmax'|by rewrite <- Hmax].
    - apply IH; [by rewrite consumer_step_maxsize|].
      pose proof (consumer_step_frame consumer_func w p) as (_ & _ & Hlen). lia. }
  apply Hrun; simpl; [done|lia].
Qed.

Lemma producer_step_account p :
  results (producer_step p) = results p
  /\ consumers (producer_step p) = consumers p
  /\ env (producer_step p) = env p
  /\ queued (data_queue (producer_step p)) ++ source (producer_step p)
     = queued (data_queue p) ++ source p.
Proof.
  unfold producer_step, queued.
  destruct (producer p); [destruct (source p) as [|data rest] eqn:Es| |];
    try destruct (queue_full p); simpl; rewrite ?Es; try done.
  - repeat split. rewrite omap_app. simpl. by rewrite <- app_assoc.
  - repeat split. rewrite omap_app. simpl. by rewrite app_nil_r.
Qed.

Lemma producer_step_pending p : pending (producer_step p) = pending p.
Proof.
  destruct (producer_step_account p) as (_ & Hcs & _ & Hq).
  unfold pending. rewrite Hcs. apply (f_equal length) in Hq.
  rewrite !length_app in Hq. lia.
Qed.

Lemma held_length c :
  length (held c) = match state c with Processing _ => 1 | _ => 0 end.
Proof. unfold held. by destruct (state c). Qed.

(** One scheduling either leaves results and pending records as they are,
    or completes one call: one pending record less, and one result more
    unless the call raised. *)
Lemma step_account p ev :
  (length (results p) = sum_list_with processed_count (consumers p) ->
   length (results (step consumer_func p ev))
   = sum_list_with processed_count (consumers (step consumer_func p ev)))
  /\ length (results (step consumer_func p ev)) + pending (step consumer_func p ev)
     <= length (results p) + pending p
  /\ ((forall data w n e0, exists e1 r, consumer_func data w n e0 = (e1, Ok r)) ->
      length (results (step consumer_func p ev)) + pending (step consumer_func p ev)
      = length (results p) + pending p).
Proof.
  destruct ev as [|w]; simpl.
  { destruct (producer_step_account p) as (-> & -> & _ & _).
    rewrite producer_step_pending. done. }
  destruct (consumer_step_cases w p)
    as [->|[(c&data&q&Hc&Hs&Hq&->)|[(c&q&Hc&Hs&Hq&->)
       |[(c&data&e&r&Hc&Hs&Hcall&->)|(c&data&e&x&Hc&Hs&Hcall&->)]]]];
    [done|..]; unfold pending, in_flight, queued; simpl; rewrite ?Hq; simpl;
    match goal with
    | |- context [<[w := ?c']> (consumers p)] =>
        pose proof (sum_list_with_insert processed_count (consumers p) w c c' Hc) as Hpc;
        pose proof (sum_list_with_insert (fun c => length (held c))
                      (consumers p) w c c' Hc) as Hfl
    end;
    simpl in Hpc, Hfl; rewrite (held_length c), Hs in Hfl;
    rewrite ?length_app; simpl;
    repeat match goal with
           | |- context [list_omap ?A ?B ?f ?l] =>
               change (list_omap A B f l) with (omap f l)
           end.
  - repeat split; intros; lia.
  - repeat split; intros; lia.
  - repeat split; intros; lia.
  - split; [intros; lia|]. split; [lia|].
    intros Hok. destruct (Hok data w (processed_count c + 1) (env p)) as (e1 & r & Hr).
    congruence.
Qed.

(** One scheduling is silent, or it completes one call of the consumer
    function: the environment is the one the call left, one pending
    record less, and its result appended unless it raised. *)
Lemma step_call p ev :
  (results (step consumer_func p ev) = results p
   /\ env (step consumer_func p ev) = env p
   /\ pending (step consumer_func p ev) = pending p)
  \/ (exists data w n,
        env (step consumer_func p ev) = (consumer_func data w n (env p)).1
        /\ pending (step consumer_func p ev) + 1 = pending p
        /\ results (step consumer_func p ev)
           = results p ++ match (consumer_func data w n (env p)).2 with
                          | Ok r => [r]
                          | Raise _ => []
                          end).
Proof.
  destruct ev as [|w]; simpl.
  { left. destruct (producer_step_account p) as (-> & _ & -> & _).
    by rewrite producer_step_pending. }
  destruct (consumer_step_cases w p)
    as [->|[(c&data&q&Hc&Hs&Hq&->)|[(c&q&Hc&Hs&Hq&->)
       |[(c&data&e&r&Hc&Hs&Hcall&->)|(c&data&e&x&Hc&Hs&Hcall&->)]]]];
    [by left|..]; unfold pending, in_flight, queued; simpl; rewrite ?Hq; simpl;
    match goal with
    | |- context [<[w := ?c']> (consumers p)] =>
        pose proof (sum_list_with_insert (fun c => length (held c))
                      (consumers p) w c c' Hc) as Hfl
    end;
    simpl in Hfl; rewrite (held_length c), Hs in Hfl;
    repeat match goal with
           | |- context [list_omap ?A ?B ?f ?l] =>
               change (list_omap A B f l) with (omap f l)
           end.
  - left. repeat split; lia.
  - left. repeat split; lia.
  - right. exists data, w, (processed_count c + 1). rewrite Hcall. simpl.
    repeat split; lia.
  - right. exists data, w, (processed_count c + 1). rewrite Hcall. simpl.
    rewrite app_nil_r. repeat split; lia.
Qed.

Lemma pending_executor (records : list Rec) buffer_size max_workers (e : Env) :
  pending (executor records buffer_size max_workers e : pipeline Rec Res Env)
  = length records.
Proof.
  assert (in_flight (replicate max_workers {| state := Waiting; processed_count := 0 |}
                     : list (consumer Rec)) = 0) as Hidle.
  { unfold in_flight. induction max_workers as [|n IH]; [done|]. simpl. by rewrite IH. }
  unfold pending. simpl. by rewrite Hidle.
Qed.

(** X10. No record is lost or counted twice between the source and the
    results: at every moment the results are as many as the consumers'
    [processed_count]s add up to, and results, records inside a call,
    records in the queue and unread records together are at most the
    records of the source - exactly as many when the consumer function
    never raises; a record whose call raised is the only one that leaves
    the count. *)
Theorem records_accounted (records : list Rec) buffer_size max_workers (e : Env)
    schedule :
  length (results (run consumer_func schedule
                     (executor records buffer_size max_workers e)))
  = sum_list_with processed_count
      (consumers (run consumer_func schedule
                    (executor records buffer_size max_workers e)))
  /\ length (results (run consumer_func schedule
                        (executor records buffer_size max_workers e)))
     + pending (run consumer_func schedule
                   (executor records buffer_size max_workers e))
     <= length records
  /\ ((forall data w n e0, exists e1 r, consumer_func data w n e0 = (e1, Ok r)) ->
      length (results (run consumer_func schedule
                         (executor records buffer_size max_workers e)))
      + pending (run consumer_func schedule
                   (executor records buffer_size max_workers e))
      = length records).
Proof.
  assert (forall p,
            length (results p) = sum_list_with processed_count (consumers p) ->
            length (results (run consumer_func schedule p))
            = sum_list_with processed_count (consumers (run consumer_func schedule p))
            /\ length (results (run consumer_func schedule p))
               + pending (run consumer_func schedule p)
               <= length (results p) + pending p
            /\ ((forall data w n e0, exists e1 r, consumer_func data w n e0 = (e1, Ok r)) ->
                length (results (run consumer_func schedule p))
                + pending (run consumer_func schedule p)
                = length (results p) + pending p)) as Hrun.
  { induction schedule as [|ev schedule IH]; intros p Hp; [done|].
    simpl. destruct (step_account p ev) as (Hcount & Hle & Heq).
    destruct (IH (step consumer_func p ev) (Hcount Hp)) as (IH1 & IH2 & IH3).
    split; [done|]. split; [lia|]. intros Hok. rewrite (IH3 Hok). by apply Heq. }
  assert (sum_list_with processed_count
            (replicate max_workers {| state := Waiting; processed_count := 0 |}
             : list (consumer Rec)) = 0) as Hzero.
  { induction max_workers as [|n IH]; [done|]. simpl. by rewrite IH. }
  destruct (Hrun (executor records buffer_size max_workers e)) as (H1 & H2 & H3).
  { simpl. by rewrite Hzero. }
  pose proof (pending_executor records buffer_size max_workers e) as Hstart.
  rewrite Hstart in H2, H3. simpl in H2, H3.
  split; [done|]. split; [done|]. intros Hok. by rewrite (H3 Hok).
Qed.

End PipelineAccounting.

Lemma data_queue_bounded_witness :
  (Z.of_nat (length (data_queue
     (run echo (replicate 5 Produce) (executor (seq 1 10) 2 3 tt)))) <= 2)%Z.
Proof. apply (data_queue_bounded echo (seq 1 10) 2 3 tt (replicate 5 Produce)). lia. Defined.

Lemma records_accounted_witness :
  length (results (run echo [Produce; Consume 0; Produce; Consume 1; Consume 0]
                     (executor (seq 1 4) 2 2 tt)))
  + pending (run echo [Produce; Consume 0; Produce; Consume 1; Consume 0]
               (executor (seq 1 4) 2 2 tt))
  = 4.
Proof.
  destruct (records_accounted echo (seq 1 4) 2 2 tt
              [Produce; Consume 0; Produce; Consume 1; Consume 0]) as (_ & _ & Heq).
  apply Heq. intros data w n e0. by exists e0, data.
Defined.

Section SingleConsumerOrder.
Context {Rec Res Env : Type}.
Variable consumer_func : Rec -> nat -> nat -> Env -> Env * result Res.
Variable origin : Res -> Rec.
Hypothesis consumer_func_origin :
  forall data w n e0 e1 r, consumer_func data w n e0 = (e1, Ok r) -> origin r = data.
Implicit Types (p : pipeline Rec Res Env) (c : consumer Rec).





End SingleConsumerOrder.


(** ** One outcome per request in the inference client *)

Import Client.

Section RequestAccounting.
Context {R Rec : Type}.
Implicit Types (p : pipeline Rec (dict R) (world R)) (e : world R).








End RequestAccounting.



(** ** The report: counts and statistics *)

Import Report.
Import Outcomes.

Section CountFacts.
Context {R : Type} `{PyNum R}.
Implicit Types (counts : list (value R * nat)) (requests : list (dict R)).

Lemma counts_set_total (key : value R) (c : nat) counts :
  counts_total (counts_set key c counts) + default 0 (counts_get key counts)
  = counts_total counts + c.
Proof.
  induction counts as [|[k c'] counts IH]; simpl; [lia|].
  destruct (key_eqb k key); simpl; unfold counts_total in *; simpl; lia.
Qed.

Lemma counts_get_le (key : value R) counts :
  default 0 (counts_get key counts) <= counts_total counts.
Proof.
  induction counts as [|[k c'] counts IH]; simpl; [lia|].
  destruct (key_eqb k key); simpl; unfold counts_total in *; simpl; lia.
Qed.

Lemma count_status_total (status : value R) counts counts' :
  count_status status counts = Ok counts' ->
  counts_total counts' = counts_total counts + 1.
Proof.
  unfold count_status. intros Hc.
  pose proof (counts_set_total status (default 0 (counts_get status counts) + 1) counts).
  destruct status; simplify_eq; lia.
Qed.

Lemma tally_total requests counts (durations : list R) counts' durations' :
  tally requests counts durations = Ok (counts', durations') ->
  counts_total counts' = counts_total counts + length requests.
Proof.
  revert counts durations; induction requests as [|req requests IH];
    intros counts durations; simpl.
  - intros [= <- <-]. lia.
  - destruct (count_status _ counts) as [c1|] eqn:Ec; [|done].
    cbn [mbind result_bind].
    destruct (keep_duration _ durations) as [d1|] eqn:Ed; [|done].
    cbn [mbind result_bind]. intros Ht. apply IH in Ht.
    apply count_status_total in Ec. lia.
Qed.

Lemma generate_report_total_requests requests (rep : report) :
  generate_report requests = Ok rep -> total_requests rep = length requests.
Proof.
  destruct requests as [|req requests]; [by intros [= <-]|].
  unfold generate_report.
  destruct (tally _ [] []) as [[counts durations]|]; [|done]. cbn [mbind result_bind].
  destruct (compute_stats durations) as [st|]; [|done]. cbn [mbind result_bind].
  destruct (_generate_summary counts st) as [text|]; [|done]. cbn [mbind result_bind].
  by intros [= <-].
Qed.

(** X14. The status histogram adds up: in every report the generator
    returns, on exact numbers and on floats alike, [total_requests] is the
    number of responses added, the counts of [status_code_counts] sum to
    it, and the summary's total is that number, with a success count that
    is the count of status 200 and at most the total. *)
Theorem status_counts_add_up requests (rep : report) :
  generate_report requests = Ok rep ->
  total_requests rep = length requests
  /\ counts_total (status_code_counts rep) = length requests
  /\ forall s, summary_text rep = Some s ->
       total s = length requests
       /\ success_count s = default 0 (counts_get (VInt 200) (status_code_counts rep))
       /\ success_count s <= total s.
Proof.
  destruct requests as [|req requests]; [by intros [= <-]|].
  unfold generate_report.
  destruct (tally _ [] []) as [[counts durations]|] eqn:Et; [|done].
  cbn [mbind result_bind].
  destruct (compute_stats durations) as [st|]; [|done]. cbn [mbind result_bind].
  apply tally_total in Et. change (counts_total []) with 0 in Et.
  unfold _generate_summary. fold (counts_total counts).
  destruct (if 0 <? counts_total counts then _ else _) as [rate|]; [|done].
  cbn [mbind result_bind]. intros [= <-]. simpl.
  simpl in Et. split; [done|]. split; [lia|]. intros s [= <-]. simpl.
  split; [lia|]. split; [done|]. apply counts_get_le.
Qed.

End CountFacts.

Lemma status_counts_add_up_witness :
  counts_total
    (status_code_counts
       {| total_requests := 3;
          status_code_counts := [(VInt 200, 2); (VInt 500, 1)];
          duration_stats := None;
          summary_text :=
            Some {| total := 3; success_count := 2;
                    success_rate := PrimFloat.mul (PrimFloat.div 2 3) 100;
                    shown := None |} |}) = 3.
Proof.
  apply (status_counts_add_up (R := float)
           [[("status", VInt 200)]; [("status", VInt 500)];
            [("status", VFloat 200%float); ("duration_ms", VInt 0)]]).
  vm_compute. reflexivity.
Defined.

Section StatisticsFacts.
Implicit Types (d durations : list Q) (p q : Z).




Lemma insert_sorted_length (x : Q) d : length (insert_sorted x d) = S (length d).
Proof.
  induction d as [|y d IH]; cbn [insert_sorted]; [done|].
  destruct (num_ltb x y); simpl; by rewrite ?IH.
Qed.




Lemma sort_length d : length (sort d) = length d.
Proof.
  induction d as [|x d IH]; simpl; [done|]. by rewrite insert_sorted_length, IH.
Qed.


(** The fractional part of the index, in hundredths. *)
Lemma index_fraction p (m : Z) :
  ((inject_Z p / inject_Z 100) * inject_Z m - inject_Z (p * m / 100)
   == inject_Z ((p * m) mod 100) / inject_Z 100)%Q.
Proof.
  pose proof (Z.div_mod (p * m) 100 ltac:(lia)) as Hdm.
  assert (inject_Z p * inject_Z m
          == inject_Z 100 * inject_Z (p * m / 100) + inject_Z ((p * m) mod 100))%Q
    as Hq.
  { rewrite <- !inject_Z_mult, <- inject_Z_plus. by rewrite <- Hdm. }
  change (inject_Z 100) with (100#1)%Q in *.
  set (a := inject_Z p) in *. set (b := inject_Z m) in *.
  set (k := inject_Z (p * m / 100)) in *. set (r := inject_Z ((p * m) mod 100)) in *.
  clearbody a b k r. field_simplify_eq. nra.
Qed.

(** The value of a percentile on a non-empty list: the entry at the
    truncated index, moved towards the next entry by the fraction. *)
Lemma percentile_value d p :
  d <> [] -> (0 <= p <= 100)%Z ->
  exists lower v,
    d !! Z.to_nat (p * (Z.of_nat (length d) - 1) / 100) = Some lower
    /\ _percentile d p = Ok v
    /\ ((p * (Z.of_nat (length d) - 1)) mod 100 = 0 -> v = lower)%Z
    /\ ((p * (Z.of_nat (length d) - 1)) mod 100 <> 0 ->
        is_Some (d !! S (Z.to_nat (p * (Z.of_nat (length d) - 1) / 100))))%Z
    /\ forall upper,
         d !! S (Z.to_nat (p * (Z.of_nat (length d) - 1) / 100)) = Some upper ->
         (v == lower + (upper - lower)
                 * (inject_Z ((p * (Z.of_nat (length d) - 1)) mod 100) / inject_Z 100))%Q.
Proof.
  intros Hne Hp.
  destruct (percentile_refines_spec d p Hne Hp) as (lower & Hlower & Hexact & Hinexact).
  destruct (decide ((p * (Z.of_nat (length d) - 1)) mod 100 = 0)%Z) as [Hz|Hnz].
  - destruct (Hexact Hz) as [Hv _]. exists lower, lower.
    split; [done|]. split; [done|]. split; [done|]. split; [done|].
    intros upper _. rewrite Hz. change (inject_Z 0) with (0#1)%Q.
    change (inject_Z 100) with (100#1)%Q. field.
  - destruct (Hinexact Hnz) as (upper & Hupper & Hv & _). eexists lower, _.
    split; [done|]. split; [exact Hv|]. split; [done|]. split; [by eexists|].
    intros upper' Hupper'. assert (upper' = upper) as -> by congruence.
    by rewrite index_fraction.
Qed.











End StatisticsFacts.


Section ReportInput.
Context {R : Type} `{PyNum R}.

(** The loop over the responses fails on the first one that cannot be
    counted, with TypeError, and on nothing else. *)
Lemma tally_reportable (requests : list (dict R)) counts (durations : list R) :
  (forallb reportable requests = true ->
   exists counts' durations', tally requests counts durations = Ok (counts', durations'))
  /\ (forallb reportable requests = false ->
      tally requests counts durations = Raise TypeError).
Proof.
  revert counts durations; induction requests as [|req requests IH];
    intros counts durations; cbn [forallb tally].
  { split; [by eexists _, _|done]. }
  unfold reportable at 1 3.
  destruct (dict_get_default "status" (VInt 0) req) as [|z|r|s|x] eqn:Es;
    destruct (dict_get_default "duration_ms" (VInt 0) req) as [|z'|r'|s'|x'] eqn:Ed;
    cbn [hashable is_number andb count_status keep_duration mbind result_bind];
    try (split; [done|reflexivity]); apply IH.
Qed.

End ReportInput.

Section ReportTotality.
Implicit Types (requests : list (dict Q)) (durations : list Q).

Lemma compute_stats_returns durations : exists st, compute_stats durations = Ok st.
Proof.
  unfold compute_stats. destruct (sort durations) as [|x d]; [by eexists|].
  rewrite py_div_positive_count by (simpl; lia). cbn [mbind result_bind].
  destruct (percentile_value (x :: d) 50) as (? & v50 & _ & -> & _); [done|lia|].
  destruct (percentile_value (x :: d) 80) as (? & v80 & _ & -> & _); [done|lia|].
  destruct (percentile_value (x :: d) 90) as (? & v90 & _ & -> & _); [done|lia|].
  destruct (percentile_value (x :: d) 95) as (? & v95 & _ & -> & _); [done|lia|].
  destruct (percentile_value (x :: d) 99) as (? & v99 & _ & -> & _); [done|lia|].
  cbn [mbind result_bind]. by eexists.
Qed.

Lemma generate_summary_returns counts (st : option stats) :
  exists s, _generate_summary (R := Q) counts st = Ok s.
Proof.
  unfold _generate_summary.
  destruct (0 <? foldr _ 0 counts) eqn:E; [|by eexists].
  apply Nat.ltb_lt in E. rewrite py_div_positive_count by done. by eexists.
Qed.

Lemma report_returns_on_countable requests :
  forallb reportable requests = true ->
  exists rep, generate_report requests = Ok rep.
Proof.
  intros Hok. destruct requests as [|req requests]; [by eexists|].
  unfold generate_report.
  destruct (proj1 (tally_reportable (req :: requests) [] []) Hok)
    as (counts & durations & ->). cbn [mbind result_bind].
  destruct (compute_stats_returns durations) as [st ->]. cbn [mbind result_bind].
  destruct (generate_summary_returns counts st) as [s ->]. by eexists.
Qed.


Lemma counts_set_integer_keys (key : value Q) (c : nat) counts :
  integer_key key = true ->
  Forall (fun kc : value Q * nat => integer_key kc.1 = true) counts ->
  Forall (fun kc : value Q * nat => integer_key kc.1 = true) (counts_set key c counts).
Proof.
  intros Hkey. induction 1 as [|[k c'] counts Hk Hrest IH]; simpl.
  - by repeat constructor.
  - destruct (key_eqb k key); by constructor.
Qed.

Lemma tally_integer_keys requests counts durations counts' durations' :
  forallb client_outcome requests = true ->
  Forall (fun kc : value Q * nat => integer_key kc.1 = true) counts ->
  tally requests counts durations = Ok (counts', durations') ->
  Forall (fun kc : value Q * nat => integer_key kc.1 = true) counts'.
Proof.
  revert counts durations; induction requests as [|req requests IH];
    intros counts durations; cbn [forallb tally].
  { by intros _ Hkeys [= <- <-]. }
  intros [Hreq Hrest]%andb_prop Hkeys. unfold client_outcome in Hreq.
  apply andb_prop in Hreq as [Hstatus _].
  destruct (count_status _ counts) as [c1|] eqn:Ec; [|done]. cbn [mbind result_bind].
  destruct (keep_duration _ durations) as [d1|]; [|done]. cbn [mbind result_bind].
  apply IH; [done|]. unfold count_status in Ec.
  destruct (dict_get_default "status" (VInt 0) req); try done.
  injection Ec as <-. by apply counts_set_integer_keys.
Qed.

Lemma client_outcome_reportable requests :
  forallb client_outcome requests = true -> forallb reportable requests = true.
Proof.
  induction requests as [|req requests IH]; simpl; [done|].
  intros [Hreq Hrest]%andb_prop. rewrite (IH Hrest), andb_true_r.
  unfold client_outcome, reportable in *.
  by destruct (dict_get_default "status" (VInt 0) req).
Qed.

End ReportTotality.


(** ** The report of a run of the inference client *)

Section ClientReport.
Context {Rec : Type}.
Implicit Types (p : pipeline Rec (dict Q) (world Q)) (e : world Q).

(** Every dictionary the consumer passes to the report generator has an
    integer as status and a number as duration. *)
Lemma recorded_client_outcome (running : option bool) (w : wire Q) uuid
    (duration now : Q) worker_id request_num :
  forallb client_outcome
    (recorded (http_inference_consumer running w uuid duration now
                 worker_id request_num)) = true.
Proof.
  unfold http_inference_consumer, on_exception.
  destruct w as [status data headers|msg], running as [[|]|]; reflexivity.
Qed.

Lemma aggregator_client_outcome schedule p :
  forallb client_outcome (aggregator (env p)) = true ->
  forallb client_outcome (aggregator (env (run consumer_func schedule p))) = true.
Proof.
  revert p; induction schedule as [|ev schedule IH]; intros p Hp; [done|].
  simpl. apply IH.
  destruct (step_call consumer_func p ev)
    as [(_ & -> & _)|(data & w & n & -> & _)]; [done|].
  unfold consumer_func. simpl. rewrite forallb_app, Hp. simpl.
  apply recorded_client_outcome.
Qed.

(** X17. The report of a run can always be generated. Whatever the
    network did, for any number of workers and any schedule, and whether
    the writer is absent, running or not running, [generate_report] on
    what [http_inference_consumer] has recorded returns a report that
    counts every recorded response, and every key of its status histogram
    is an integer - so that sorting the histogram, as [print_report]
    does, compares integers only - provided the generator held only
    responses of that kind before the run. *)
Theorem report_of_a_run (records : list Rec) buffer_size max_workers e schedule :
  forallb client_outcome (aggregator e) = true ->
  exists rep,
    generate_report
      (aggregator (env (run consumer_func schedule
                          (executor records buffer_size max_workers e))))
    = Ok rep
    /\ total_requests rep
       = length (aggregator (env (run consumer_func schedule
                                    (executor records buffer_size max_workers e))))
    /\ Forall (fun kc => exists status, kc.1 = VInt status) (status_code_counts rep).
Proof.
  intros He.
  pose proof (aggregator_client_outcome schedule
                (executor records buffer_size max_workers e) He) as Hall.
  set (requests := aggregator (env (run consumer_func schedule
                                      (executor records buffer_size max_workers e))))
    in *.
  destruct (report_returns_on_countable requests (client_outcome_reportable _ Hall))
    as [rep Hrep].
  exists rep. split; [done|]. split; [by apply generate_report_total_requests|].
  assert (Forall (fun kc : value Q * nat => integer_key kc.1 = true)
            (status_code_counts rep)) as Hkeys.
  { destruct requests as [|req requests']; [by injection Hrep as <-|].
    unfold generate_report in Hrep.
    destruct (tally (req :: requests') [] []) as [[counts durations]|] eqn:Et; [|done].
    cbn [mbind result_bind] in Hrep.
    destruct (compute_stats durations) as [st|]; [|done].
    cbn [mbind result_bind] in Hrep.
    destruct (_generate_summary counts st) as [text|]; [|done].
    cbn [mbind result_bind] in Hrep. injection Hrep as <-. simpl.
    by apply (tally_integer_keys _ _ _ _ _ Hall (Forall_nil_2 _) Et). }
  eapply Forall_impl; [exact Hkeys|]. intros [k c] Hk. simpl in *.
  destruct k; try done. by eexists.
Qed.

End ClientReport.

Lemma report_of_a_run_witness :
  exists rep,
    generate_report
      (aggregator (env (run consumer_func
                          [Produce; Produce; Consume 0; Consume 1; Consume 0; Consume 1]
                          (executor ["a"; "b"]%string 10 2 quiet_world))))
    = Ok rep
    /\ total_requests rep = 2.
Proof.
  destruct (report_of_a_run ["a"; "b"]%string 10 2 quiet_world
              [Produce; Produce; Consume 0; Consume 1; Consume 0; Consume 1] eq_refl)
    as (rep & Hrep & Htotal & _).
  by exists rep.
Defined.

(** ** One worker runs the plain loop *)

Import Sequential.

Section SequentialFacts.
Context {Rec Res Env : Type}.
Variable consumer_func : Rec -> nat -> nat -> Env -> Env * result Res.
Implicit Types (p : pipeline Rec Res Env) (c : consumer Rec).

Lemma sequential_step (e : Env) (records : list Rec) p ev :
  sequential consumer_func e records p ->
  sequential consumer_func e records (step consumer_func p ev).
Proof.
  intros (c0 & completed & Hcs & Hsplit & Hloop).
  destruct ev as [|w]; simpl.
  { destruct (producer_step_account p) as (Hres & Hcs' & Henv & Hq).
    exists c0, completed. rewrite Hres, Hcs', Henv, Hq. done. }
  destruct (consumer_step_cases consumer_func w p)
    as [->|[(c&data&q&Hc&Hs&Hq&->)|[(c&q&Hc&Hs&Hq&->)
       |[(c&data&e'&r&Hc&Hs&Hcall&->)|(c&data&e'&x&Hc&Hs&Hcall&->)]]]];
    [by exists c0, completed|..];
    rewrite Hcs in Hc; (destruct w as [|w]; [|done]); simpl in Hc; injection Hc as ->;
    unfold held in Hsplit; rewrite Hs in Hsplit; simpl in Hsplit;
    unfold sequential; simpl; rewrite Hcs; simpl.
  - eexists _, completed. split; [done|]. simpl. rewrite Hq in Hsplit. done.
  - eexists _, completed. split; [done|]. simpl. rewrite Hq in Hsplit. done.
  - eexists _, (completed ++ [data]). split; [done|]. simpl.
    rewrite <- app_assoc. split; [done|].
    unfold loop in *. rewrite foldl_app, Hloop. simpl. by rewrite Hcall.
  - eexists _, (completed ++ [data]). split; [done|]. simpl.
    rewrite <- app_assoc. split; [done|].
    unfold loop in *. rewrite foldl_app, Hloop. simpl. by rewrite Hcall.
Qed.

Lemma sequential_run (e : Env) (records : list Rec) schedule p :
  sequential consumer_func e records p ->
  sequential consumer_func e records (run consumer_func schedule p).
Proof.
  revert p; induction schedule as [|ev schedule IH]; intros p Hp; [done|].
  simpl. by apply IH, sequential_step.
Qed.

(** X18. With one consumer worker the executor computes what the plain
    loop over the records computes, whatever the queue size and the
    schedule: at every moment the environment, the results and the
    worker's count are those of the loop run over a prefix of the source,
    and once the executor has returned they are those of the loop run over
    the whole source. *)
Theorem single_consumer_is_sequential (records : list Rec) buffer_size (e : Env) schedule :
  exists k,
    k <= length records
    /\ loop consumer_func (take k records) e
       = (env (run consumer_func schedule (executor records buffer_size 1 e)),
          results (run consumer_func schedule (executor records buffer_size 1 e)),
          from_option processed_count 0
            (consumers (run consumer_func schedule
                          (executor records buffer_size 1 e)) !! 0))
    /\ (Pipeline.returned (run consumer_func schedule (executor records buffer_size 1 e)) = true ->
        k = length records
        /\ (loop consumer_func records e).1
           = (env (run consumer_func schedule (executor records buffer_size 1 e)),
              results (run consumer_func schedule (executor records buffer_size 1 e)))).
Proof.
  assert (sequential consumer_func e records
            (executor records buffer_size 1 e : pipeline Rec Res Env)) as Hstart.
  { exists {| state := Waiting; processed_count := 0 |}, []. by repeat split. }
  pose proof (sequential_run e records schedule _ Hstart)
    as (c0 & completed & Hcs & Hsplit & Hloop).
  set (p := run consumer_func schedule (executor records buffer_size 1 e)) in *.
  exists (length completed).
  assert (take (length completed) records = completed) as Htake.
  { rewrite <- Hsplit. by rewrite take_app_length. }
  split; [rewrite <- Hsplit, length_app; lia|].
  split; [by rewrite Htake, Hcs|].
  intros Hret.
  assert (protocol p) as Hp by apply protocol_run, protocol_executor.
  destruct (returned_drained p Hp Hret) as (Hsrc & _ & Hq).
  rewrite Hsrc, Hq in Hsplit by (by rewrite Hcs).
  unfold Pipeline.returned in Hret. destruct (producer p); try done.
  rewrite Hcs in Hret. simpl in Hret. unfold exited in Hret.
  unfold held in Hsplit. destruct (state c0); try done.
  simpl in Hsplit. rewrite !app_nil_r in Hsplit. subst completed.
  split; [done|]. by rewrite Hloop.
Qed.

End SequentialFacts.

(** ** The list path and the file path of the client *)

Import ListPath.

Section ListPathFacts.
Context {R Rec : Type}.
Implicit Types (e : world R).





End ListPathFacts.


(** ** The reading modes of the client *)

Import WithMode.

Section ModeFacts.
Context {R Rec : Type}.

Lemma process_data_by_mode_returns (randbits : nat -> nat) (raw_data : list Rec)
    mode (count : option Z) fill :
  (mode <> DataHandler.FULL_LOAD -> exists n, count = Some n /\ (0 < n)%Z) ->
  exists selected,
    (DataHandler._process_data_by_mode randbits raw_data mode count fill).2 = Ok selected.
Proof.
  intros Hcount. unfold DataHandler._process_data_by_mode.
  destruct raw_data as [|first_item rest]; [by eexists|].
  destruct mode; try (by eexists);
    (destruct Hcount as (n & -> & Hn); [done|]).
  - repeat case_match; by eexists.
  - repeat case_match; by eexists.
  - destruct (_ <? n)%Z eqn:E; [by eexists|]. apply Z.ltb_ge in E.
    unfold DataHandler.random_sample.
    rewrite (proj2 (Z.ltb_ge n 0)), (proj2 (Z.ltb_ge _ n)) by lia. by eexists.
Qed.

(** X20. Only full-load mode without a line range sends requests. For a
    .jsonl file, in every other case - the modes specified_count, first_n
    and random_n, and full_load with a start or end line -
    [inference_concurrent_requests_with_mode] never runs the executor: it
    ends with the error of [load_data], or, when the arguments are valid
    (a positive count where the mode needs one, positive line numbers in
    order), it loads the request bodies and then fails on the call of
    [test_concurrent_requests], which the class does not have. *)
Theorem only_full_load_sends_requests (randbits : nat -> nat)
    (lines : list (Jsonl.line Rec)) (document : result (list Rec)) read_mode
    (count : option Z) rate_limit buffer_size fill (start_line end_line : option Z)
    (e : world R) schedule :
  read_mode <> DataHandler.FULL_LOAD \/ is_Some start_line \/ is_Some end_line ->
  (forall p,
     inference_concurrent_requests_with_mode randbits ".jsonl" lines document read_mode
       count rate_limit buffer_size fill start_line end_line e schedule
     <> Completed p)
  /\ ((read_mode <> DataHandler.FULL_LOAD -> is_Some count) ->
      (forall n, count = Some n -> (0 < n)%Z) ->
      (forall s, start_line = Some s -> (0 < s)%Z) ->
      (forall t, end_line = Some t -> (0 < t)%Z) ->
      (forall s t, start_line = Some s -> end_line = Some t -> (s <= t)%Z) ->
      exists request_bodies,
        (Jsonl.load_data_jsonl randbits lines read_mode count fill start_line end_line).2
        = Ok request_bodies
        /\ inference_concurrent_requests_with_mode randbits ".jsonl" lines document
             read_mode count rate_limit buffer_size fill start_line end_line e schedule
           = NoSuchMethod request_bodies).
Proof.
  intros Hmode. unfold inference_concurrent_requests_with_mode.
  rewrite bool_decide_eq_true_2 by done.
  assert (match read_mode, start_line, end_line with
          | DataHandler.FULL_LOAD, None, None => False
          | _, _, _ => True
          end) as Hother.
  { destruct read_mode, start_line, end_line; try done.
    destruct Hmode as [?|[[? ?]|[? ?]]]; done. }
  split.
  - intros p. destruct read_mode, start_line, end_line; try done;
      by destruct (Jsonl.load_data_jsonl _ _ _ _ _ _ _).2.
  - intros Hneeds Hcount Hstart Hend Horder.
    assert (exists request_bodies,
              (Jsonl.load_data_jsonl randbits lines read_mode count fill
                 start_line end_line).2 = Ok request_bodies) as [bodies Hload].
    { unfold Jsonl.load_data_jsonl.
      assert ((match read_mode with DataHandler.FULL_LOAD => false | _ => true end)
              && negb (bool_decide (is_Some count)) = false) as ->.
      { destruct read_mode; try done;
          by rewrite bool_decide_eq_true_2 by (by apply Hneeds). }
      assert (forall x : option Z, (forall v, x = Some v -> (0 < v)%Z) ->
                match x with Some v => (v <=? 0)%Z | None => false end = false)
        as Hpositive.
      { intros [v|] Hv; [|done]. apply Z.leb_gt. by apply Hv. }
      rewrite !Hpositive by done.
      assert (match start_line, end_line with
              | Some s, Some t => (t <? s)%Z
              | _, _ => false
              end = false) as ->.
      { destruct start_line as [s|], end_line as [t|]; try done.
        apply Z.ltb_ge. by apply Horder. }
      destruct (Jsonl._load_jsonl lines start_line end_line) as [log raw_data].
      destruct (process_data_by_mode_returns randbits raw_data read_mode count fill)
        as [selected Hsel].
      { intros Hm. destruct (Hneeds Hm) as [n ->]. exists n. split; [done|].
        by apply Hcount. }
      destruct (DataHandler._process_data_by_mode randbits raw_data read_mode count fill)
        as [log' result]. simpl in *. by exists selected. }
    exists bodies. split; [done|]. rewrite Hload.
    by destruct read_mode, start_line, end_line.
Qed.

End ModeFacts.

Lemma only_full_load_sends_requests_witness :
  inference_concurrent_requests_with_mode (fun i => i) ".jsonl"
    [Jsonl.Parsed "a"; Jsonl.Parsed "b"; Jsonl.Parsed "c"]%string (Raise ValueError)
    DataHandler.FIRST_N (Some 2%Z) 5 None true None None quiet_world
    [Produce; Consume 0; Consume 0]
  = NoSuchMethod ["a"; "b"]%string.
Proof.
  destruct (only_full_load_sends_requests (fun i => i)
              [Jsonl.Parsed "a"; Jsonl.Parsed "b"; Jsonl.Parsed "c"]%string
              (Raise ValueError) DataHandler.FIRST_N (Some 2%Z) 5 None true None None
              quiet_world [Produce; Consume 0; Consume 0]) as [_ Hvalid]; [by left|].
  destruct Hvalid as (bodies & Hload & Hout);
    [done | by intros n [= <-] | done | done | done |].
  rewrite Hout. f_equal. vm_compute in Hload. by injection Hload as <-.
Defined.

(** ** The environment configuration *)

Import EnvConfig.

Section EnvConfigFacts.
Implicit Types (k : key) (configs : list json) (env_counts : list (key * nat)).

Lemma key_eqb_refl k : key_eqb k k = true.
Proof.
  destruct k as [|n|s]; simpl; [done| |apply String.eqb_refl].
  apply Qeq_bool_iff. reflexivity.
Qed.

Lemma key_eqb_sym k k' : key_eqb k k' = key_eqb k' k.
Proof.
  destruct k as [|n|s], k' as [|n'|s']; simpl; try done.
  - destruct (Qeq_bool n n') eqn:E, (Qeq_bool n' n) eqn:E'; try done.
    + apply Qeq_bool_iff in E. symmetry in E. apply Qeq_bool_iff in E. congruence.
    + apply Qeq_bool_iff in E'. symmetry in E'. apply Qeq_bool_iff in E'. congruence.
  - apply String.eqb_sym.
Qed.

Lemma key_eqb_trans k1 k2 k3 :
  key_eqb k1 k2 = true -> key_eqb k2 k3 = true -> key_eqb k1 k3 = true.
Proof.
  destruct k1 as [|n1|s1], k2 as [|n2|s2], k3 as [|n3|s3]; simpl; try done.
  - intros H12%Qeq_bool_iff H23%Qeq_bool_iff. apply Qeq_bool_iff.
    by rewrite H12.
  - intros ->%String.eqb_eq ->%String.eqb_eq. apply String.eqb_refl.
Qed.

(** Equal keys are looked up alike. *)
Lemma key_eqb_congruence k k' k'' :
  key_eqb k k' = true -> key_eqb k'' k = key_eqb k'' k'.
Proof.
  intros Hk. destruct (key_eqb k'' k) eqn:E.
  - symmetry. by apply key_eqb_trans with k.
  - destruct (key_eqb k'' k') eqn:E'; [|done].
    rewrite key_eqb_sym in Hk. by rewrite (key_eqb_trans _ _ _ E' Hk) in E.
Qed.

Lemma counts_get_congruence k k' env_counts :
  key_eqb k k' = true -> counts_get k env_counts = counts_get k' env_counts.
Proof.
  intros Hk. induction env_counts as [|[k0 c0] rest IH]; simpl; [done|].
  by rewrite (key_eqb_congruence k k' k0 Hk), IH.
Qed.

Lemma counts_get_set k k' (c : nat) env_counts :
  counts_get k' (counts_set k c env_counts)
  = if key_eqb k k' then Some c else counts_get k' env_counts.
Proof.
  induction env_counts as [|[k0 c0] rest IH]; simpl; [done|].
  destruct (key_eqb k0 k) eqn:E0; simpl.
  - destruct (key_eqb k0 k') eqn:E1.
    + rewrite key_eqb_sym in E0. by rewrite (key_eqb_trans _ _ _ E0 E1).
    + destruct (key_eqb k k') eqn:E2; [|done].
      by rewrite (key_eqb_trans _ _ _ E0 E2) in E1.
  - destruct (key_eqb k0 k') eqn:E1; [|done].
    destruct (key_eqb k k') eqn:E2; [|done].
    rewrite key_eqb_sym in E2. by rewrite (key_eqb_trans _ _ _ E1 E2) in E0.
Qed.

(** The first loop counts, for every key, the configurations that have
    it. *)
Lemma count_envs_occurrences configs env_counts env_counts' k :
  count_envs configs env_counts = inr env_counts' ->
  default 0 (counts_get k env_counts')
  = default 0 (counts_get k env_counts) + occurrences k configs.
Proof.
  revert env_counts; induction configs as [|config configs IH]; intros env_counts;
    cbn [count_envs].
  { intros [= <-]. unfold occurrences. simpl. lia. }
  unfold occurrences in *. cbn [List.filter]. unfold has_env at 1.
  destruct config as [| | | | |d]; try done.
  destruct (obj_get "env" d) as [env|]; [|by apply IH].
  destruct (truthy env); [|by apply IH]. cbn [andb].
  destruct (key_of env) as [k0|]; [|done].
  intros Hc. rewrite (IH _ Hc), counts_get_set.
  destruct (key_eqb k0 k) eqn:E; simpl; [|lia].
  rewrite (counts_get_congruence k0 k env_counts E). lia.
Qed.

Lemma count_envs_countable configs env_counts env_counts' :
  count_envs configs env_counts = inr env_counts' -> forallb countable configs = true.
Proof.
  revert env_counts; induction configs as [|config configs IH]; intros env_counts;
    cbn [count_envs forallb]; [done|].
  unfold countable at 1.
  destruct config as [| | | | |d]; try done.
  destruct (obj_get "env" d) as [env|]; [|by apply IH].
  destruct (truthy env); [|by apply IH]. simpl.
  destruct (key_of env) as [k0|]; [|done].
  intros Hc. rewrite bool_decide_eq_true_2 by done. by apply (IH _ Hc).
Qed.

Lemma no_conflict_counts env_counts k :
  List.filter (fun kc : key * nat => 1 <? kc.2) env_counts = [] ->
  default 0 (counts_get k env_counts) <= 1.
Proof.
  induction env_counts as [|[k0 c0] rest IH]; simpl; [lia|].
  destruct (1 <? c0) eqn:E; [done|]. apply Nat.ltb_ge in E.
  intros Hrest. destruct (key_eqb k0 k); simpl; [lia|by apply IH].
Qed.

Lemma find_occurs (f : json -> bool) configs config :
  List.find f configs = Some config ->
  f config = true /\ 1 <= length (List.filter f configs).
Proof.
  induction configs as [|c configs IH]; simpl; [done|].
  destruct (f c) eqn:E.
  - intros [= <-]. split; [done|]. simpl. lia.
  - intros Hf. destruct (IH Hf) as [Hc Hlen]. done.
Qed.

Lemma is_env_has_env (env_name : string) config :
  env_name <> ""%string -> is_env env_name config = true ->
  has_env (KStr env_name) config = true.
Proof.
  intros Hname. unfold is_env, has_env.
  destruct config as [| | | | |d]; try done.
  destruct (obj_get "env" d) as [[| | |s| |]|]; try done.
  intros ->%String.eqb_eq. simpl. rewrite String.eqb_refl, andb_true_r.
  apply negb_true_iff. by apply String.eqb_neq.
Qed.

Lemma filter_occurs (f g : json -> bool) configs config :
  List.find f configs = Some config -> g config = true ->
  1 <= length (List.filter g configs).
Proof.
  induction configs as [|c configs IH]; simpl; [done|].
  destruct (f c) eqn:E.
  - intros [= <-] ->. simpl. lia.
  - intros Hf Hg. specialize (IH Hf Hg). destruct (g c); simpl; lia.
Qed.

(** X21. A configuration [_load_env_config] returns is the only one of
    its environment: it is the first dictionary of the file whose env is
    the requested name, it has a name, every line of the file is a
    dictionary, no env that is true occurs on two lines of the file -
    whether it is the requested one or not - and the requested name, when
    it is not the empty string, occurs exactly once. *)
Theorem loaded_config_is_unique configs (env_name : string) (config : json) :
  _load_env_config configs env_name = inr config ->
  (exists d, config = JObj d
             /\ obj_get "env" d = Some (JStr env_name)
             /\ is_Some (obj_get "name" d))
  /\ List.find (is_env env_name) configs = Some config
  /\ forallb countable configs = true
  /\ (forall k, occurrences k configs <= 1)
  /\ (env_name <> ""%string -> occurrences (KStr env_name) configs = 1).
Proof.
  unfold _load_env_config.
  destruct (count_envs configs []) as [f|env_counts] eqn:Ecount; [done|].
  destruct (List.filter _ env_counts) as [|conflict conflicts] eqn:Efilter; [|done].
  destruct (List.find (is_env env_name) configs) as [[| | | | |d]|] eqn:Efind;
    try done.
  destruct (truthy (JObj d)); [|done].
  destruct (obj_get "name" d) as [name|] eqn:Ename; [|done].
  intros [= <-].
  destruct (find_occurs _ _ _ Efind) as [Hisenv _].
  assert (forall k, occurrences k configs <= 1) as Hunique.
  { intros k. pose proof (count_envs_occurrences configs [] env_counts k Ecount) as Hocc.
    pose proof (no_conflict_counts env_counts k Efilter). simpl in Hocc. lia. }
  split; [|split; [done|split; [by apply (count_envs_countable _ _ _ Ecount)|split]]].
  - exists d. split; [done|]. split; [|by rewrite Ename].
    unfold is_env in Hisenv.
    destruct (obj_get "env" d) as [[| | |s| |]|]; try done.
    by apply String.eqb_eq in Hisenv as ->.
  - done.
  - intros Hname. specialize (Hunique (KStr env_name)).
    pose proof (filter_occurs _ (has_env (KStr env_name)) _ _ Efind
                  (is_env_has_env env_name _ Hname Hisenv)) as Hone.
    unfold occurrences in *. lia.
Qed.

Lemma counts_get_none k env_counts :
  counts_get k env_counts = None ->
  Forall (fun kc : key * nat => key_eqb kc.1 k = false) env_counts.
Proof.
  induction env_counts as [|[k0 c0] rest IH]; simpl; [by constructor|].
  destruct (key_eqb k0 k) eqn:E; [done|]. intros Hrest. constructor; [done|by apply IH].
Qed.

Lemma distinct_set k (c : nat) env_counts :
  distinct env_counts -> distinct (counts_set k c env_counts).
Proof.
  induction env_counts as [|[k0 c0] rest IH]; simpl; [done|].
  intros [Hk0 Hrest]. destruct (key_eqb k0 k) eqn:E; simpl; [done|].
  split; [|by apply IH]. rewrite counts_get_set.
  by rewrite key_eqb_sym, E.
Qed.

Lemma count_envs_distinct configs env_counts env_counts' :
  distinct env_counts -> count_envs configs env_counts = inr env_counts' ->
  distinct env_counts'.
Proof.
  revert env_counts; induction configs as [|config configs IH]; intros env_counts Hd;
    cbn [count_envs].
  { by intros [= <-]. }
  destruct config as [| | | | |d]; try done.
  destruct (obj_get "env" d) as [env|]; [|by apply IH].
  destruct (truthy env); [|by apply IH].
  destruct (key_of env) as [k0|]; [|done].
  apply IH. by apply distinct_set.
Qed.

Lemma count_envs_returns configs env_counts :
  forallb countable configs = true ->
  exists env_counts', count_envs configs env_counts = inr env_counts'.
Proof.
  revert env_counts; induction configs as [|config configs IH]; intros env_counts;
    cbn [count_envs forallb]; [by eexists|].
  unfold countable at 1. intros [Hc Hrest]%andb_prop.
  destruct config as [| | | | |d]; try done.
  destruct (obj_get "env" d) as [env|]; [|by apply IH].
  destruct (truthy env); [|by apply IH]. simpl in Hc.
  destruct (key_of env) as [k0|]; [by apply IH|].
  apply bool_decide_eq_true_1 in Hc. by destruct Hc.
Qed.

(** With distinct keys every entry holds the count of its key. *)
Lemma distinct_entries env_counts :
  distinct env_counts ->
  Forall (fun kc : key * nat => counts_get kc.1 env_counts = Some kc.2) env_counts.
Proof.
  induction env_counts as [|[k0 c0] rest IH]; simpl; [by constructor|].
  intros [Hk0 Hrest]. constructor.
  - simpl. by rewrite key_eqb_refl.
  - specialize (IH Hrest). apply counts_get_none in Hk0.
    rewrite Forall_forall in *. intros [k c] Hin. simpl.
    specialize (Hk0 _ Hin). simpl in Hk0.
    destruct (key_eqb k0 k) eqn:E.
    + rewrite key_eqb_sym in E. congruence.
    + by apply (IH (k, c)).
Qed.

Lemma small_counts_no_conflict env_counts :
  Forall (fun kc : key * nat => kc.2 <= 1) env_counts ->
  List.filter (fun kc : key * nat => 1 <? kc.2) env_counts = [].
Proof.
  induction 1 as [|[k c] rest Hc Hrest IH]; simpl; [done|].
  simpl in Hc. by rewrite (proj2 (Nat.ltb_ge 1 c)) by lia.
Qed.

(** X22. On a file of dictionaries with hashable envs the outcome of
    [_load_env_config] is decided by the repetitions: if some env that is
    true occurs on two lines, the method fails with the conflict error
    whatever name is requested; if none does, it returns the first
    dictionary whose env is the requested name, provided that dictionary
    has a name. *)
Theorem env_conflicts_decide configs (env_name : string) :
  forallb countable configs = true ->
  ((exists k, 2 <= occurrences k configs) ->
   exists conflicts, _load_env_config configs env_name = inl (Conflict conflicts))
  /\ ((forall k, occurrences k configs <= 1) ->
      forall d,
        List.find (is_env env_name) configs = Some (JObj d) ->
        is_Some (obj_get "name" d) ->
        _load_env_config configs env_name = inr (JObj d)).
Proof.
  intros Hall. unfold _load_env_config.
  destruct (count_envs_returns configs [] Hall) as [env_counts Ecount].
  rewrite Ecount.
  pose proof (fun k => count_envs_occurrences configs [] env_counts k Ecount) as Hocc.
  simpl in Hocc.
  split.
  - intros [k Hk].
    destruct (List.filter _ env_counts) as [|conflict conflicts] eqn:Efilter;
      [|by eexists].
    pose proof (no_conflict_counts env_counts k Efilter). rewrite Hocc in *. lia.
  - intros Hunique d Hfind [name Hname].
    rewrite small_counts_no_conflict.
    2:{ pose proof (distinct_entries env_counts
                      (count_envs_distinct configs [] env_counts I Ecount)) as Hentries.
        eapply Forall_impl; [exact Hentries|]. intros [k c] Hkc. simpl in *.
        specialize (Hunique k). rewrite <- Hocc, Hkc in Hunique. done. }
    rewrite Hfind.
    destruct (find_occurs _ _ _ Hfind) as [Hisenv _].
    assert (truthy (JObj d) = true) as ->.
    { unfold is_env in Hisenv. by destruct d. }
    by rewrite Hname.
Qed.

End EnvConfigFacts.

Lemma loaded_config_is_unique_witness :
  occurrences (KStr "prod")
    [JObj [("env", JStr "test"); ("name", JStr "Test")];
     JObj [("env", JStr "prod"); ("name", JStr "Production")];
     JObj [("comment", JStr "no env here")]] = 1.
Proof.
  destruct (loaded_config_is_unique
              [JObj [("env", JStr "test"); ("name", JStr "Test")];
               JObj [("env", JStr "prod"); ("name", JStr "Production")];
               JObj [("comment", JStr "no env here")]] "prod"
              (JObj [("env", JStr "prod"); ("name", JStr "Production")]) eq_refl)
    as (_ & _ & _ & _ & Hone).
  by apply Hone.
Defined.

Lemma env_conflicts_decide_witness :
  exists conflicts,
    _load_env_config
      [JObj [("env", JStr "test"); ("name", JStr "Test")];
       JObj [("env", JNum 1); ("name", JStr "One")];
       JObj [("env", JBool true); ("name", JStr "True")]] "test"
    = inl (Conflict conflicts).
Proof.
  destruct (env_conflicts_decide
              [JObj [("env", JStr "test"); ("name", JStr "Test")];
               JObj [("env", JNum 1); ("name", JStr "One")];
               JObj [("env", JBool true); ("name", JStr "True")]] "test" eq_refl)
    as [Hconflict _].
  apply Hconflict. exists (KNum 1). vm_compute. lia.
Defined.

(** ** Request headers *)

Import Headers.

Section HeaderFacts.

Lemma mask_header_hides (key value value' : string) :
  String.eqb (lower key) "authorization" = true ->
  String.prefix "Bearer " value = String.prefix "Bearer " value' ->
  mask_header key value = mask_header key value'.
Proof. unfold mask_header. by intros -> ->. Qed.

(** X23. The headers the client sends, and what the log shows of them.
    Whatever headers the caller passes, the request carries Authorization
    "Bearer <key>", the key being the client's own when it has a non-empty
    one and the configuration's otherwise (a caller's Authorization is
    replaced), the request id under X-Client-Request-ID, and every other
    header of the caller unchanged, or Content-Type application/json when
    the caller gave none. The text logged for the Authorization header is
    "Authorization: Bearer ***" for every key: the key is not in it. *)
Theorem authorization_set_and_masked (api_key config_api_key : option string)
    (custom : option headers) (request_id : string) (sent : headers) :
  sent_headers api_key config_api_key custom request_id = Some sent ->
  exists key,
    match api_key with
    | Some (String c s) => key = String c s
    | _ => config_api_key = Some key
    end
    /\ obj_get "Authorization" sent = Some ("Bearer " ++ key)%string
    /\ (request_id <> ""%string -> obj_get "X-Client-Request-ID" sent = Some request_id)
    /\ (forall name,
          name <> "Authorization"%string -> name <> "X-Client-Request-ID"%string ->
          obj_get name sent
          = obj_get name
              match custom with
              | Some (header :: rest) => header :: rest
              | _ => [("Content-Type"%string, "application/json"%string)]
              end)
    /\ (forall value,
          obj_get "Authorization" sent = Some value ->
          mask_header "Authorization" value = "Authorization: Bearer ***"%string).
Proof.
  unfold sent_headers, _create_headers.
  set (base := match custom with
               | Some (header :: rest) => header :: rest
               | _ => [("Content-Type"%string, "application/json"%string)]
               end).
  destruct (match api_key with
            | Some (String c s) => Some (String c s)
            | _ => config_api_key
            end) as [key|] eqn:Ekey; [|done].
  cbn [mbind option_bind]. intros [= <-].
  assert (obj_get "Authorization"
            (_add_request_id_to_headers
               (Some (obj_set "Authorization" ("Bearer " ++ key)%string base))
               (Some request_id))
          = Some ("Bearer " ++ key)%string) as Hauth.
  { unfold _add_request_id_to_headers. simpl default.
    destruct request_id as [|c s]; [apply obj_get_set|].
    rewrite obj_get_set_other by done. apply obj_get_set. }
  exists key. split; [|split; [done|split; [|split]]].
  - destruct api_key as [[|c s]|]; try done. by injection Ekey as <-.
  - intros Hid. unfold _add_request_id_to_headers. simpl default.
    destruct request_id as [|c s]; [done|]. apply obj_get_set.
  - intros name Hauth' Hid. unfold _add_request_id_to_headers. simpl default.
    destruct request_id as [|c s]; rewrite !obj_get_set_other by done; done.
  - intros value Hvalue. pose proof (eq_trans (eq_sym Hvalue) Hauth) as [= ->].
    unfold mask_header.
    assert (String.eqb (lower "Authorization") "authorization" = true) as ->
      by (vm_compute; reflexivity).
    by destruct key.
Qed.

End HeaderFacts.

Lemma authorization_set_and_masked_witness :
  header_str
    [("Authorization", "Bearer sk-live-1"); ("X-Trace", "7");
     ("X-Client-Request-ID", "0f3a")]%string
  = "Authorization: Bearer ***, X-Trace: 7, X-Client-Request-ID: 0f3a"%string.
Proof.
  destruct (authorization_set_and_masked (Some "sk-live-1"%string) None
              (Some [("Authorization", "Basic abc"); ("X-Trace", "7")]%string)
              "0f3a"
              [("Authorization", "Bearer sk-live-1"); ("X-Trace", "7");
               ("X-Client-Request-ID", "0f3a")]%string eq_refl)
    as (key & _ & _ & _ & _ & Hmask).
  unfold header_str. simpl map. by rewrite (Hmask "Bearer sk-live-1"%string eq_refl).
Defined.
